(** * zrepl replication endpoints (package [endpoint])

    A shallow embedding of [endpoint/endpoint.go]: the local sending and
    receiving endpoints, the streamrpc client stub [Remote] and the
    server-side dispatcher [Handler].

    Go values are embedded as follows.
    - [(v, err)] results are a [result]; a bare [error] is an [option error]
      ([None] is [nil]).
    - An [io.ReadCloser] is a [ReadCloser]: [None] is the nil interface,
      [Some s] an open stream handle [s].
    - Everything the package calls but does not define (package [zfs], the
      [pdu] conversions, the path policies, the transport) is a parameter.
    - Calls that leave the package are recorded, in program order, in a trace
      of [Event]s, next to the state of the world they act on. *)

From stdpp Require Import base gmap strings list pretty.
From Stdlib Require Import ZArith Ascii String List Bool Lia.
Import ListNotations.
Local Open Scope string_scope.
Local Open Scope list_scope.
Local Set Warnings "-register-all".

(** ** Errors and results *)

(** The error values the package builds or tells apart.  [runtimePanic] is not
    a Go [error]: it stands in the error position for a run-time panic (a nil
    dereference), so that the embedded functions stay total. *)
Inductive error : Type :=
| FilteredError (fs : string)              (* replication.NewFilteredError *)
| DatasetDoesNotExist (path : string)      (* *zfs.DatasetDoesNotExist *)
| errorString (msg : string)               (* errors.New *)
| Errorf (format : string) (args : list string) (* fmt.Errorf, errors.Errorf *)
| withMessage (cause : error) (msg : string)    (* errors.Wrap *)
| runtimePanic (what : string).

Inductive result (A : Type) : Type :=
| Ok (a : A)
| Err (e : error).
Arguments Ok {A} a.
Arguments Err {A} e.

Definition NewFilteredError (fs : string) : error := FilteredError fs.

Definition is_FilteredError (e : error) : bool :=
  match e with FilteredError _ => true | _ => false end.

Definition is_DatasetDoesNotExist (e : error) : bool :=
  match e with DatasetDoesNotExist _ => true | _ => false end.

(** ** Streams and buffers *)

Definition Stream := nat.
Definition ReadCloser := option Stream.
Definition bytes := list Byte.byte.

(** ** Package zfs: the data the endpoints handle *)

Module zfs.

(** A dataset path is its sequence of components; [Equal] compares them. *)
Definition DatasetPath := list string.

Fixpoint Equal (p q : DatasetPath) : bool :=
  match p, q with
  | [], [] => true
  | c :: p', d :: q' => String.eqb c d && Equal p' q'
  | _, _ => false
  end.

Inductive VersionType : Type := Snapshot | Bookmark.

Record FilesystemVersion : Type := {
  Type' : VersionType;
  Name : string;
  Guid : Z;
  CreateTXG : Z;
  Creation : Z
}.

(** [zfs.ZFSProperties] wraps a [map[string]string]; [Get] of an absent key
    is the empty string. *)
Definition ZFSProperties := gmap string string.

Definition Get (props : ZFSProperties) (key : string) : string :=
  default "" (props !! key).

Definition DatasetFilter := DatasetPath -> result bool.
Definition FilesystemVersionFilter := FilesystemVersion -> result bool.

Record DatasetPathVisit : Type := {
  Path : DatasetPath;
  FilledIn : bool
}.

(** Modelled from the spec: [zfs.DatasetPathForest] (package [zfs] is not part
    of the sources at hand), "the conceptual tree of the mapped path's
    ancestors".  A tree node carries one path component, whether it was only
    filled in as an intermediate component, and its children. *)
Inductive datasetPathTree : Type :=
| Tree (Component : string) (FilledIn : bool) (Children : list datasetPathTree).

Definition DatasetPathForest := list datasetPathTree.

Definition NewDatasetPathForest : DatasetPathForest := [].

(** The chain spelling one path: every node but the last is filled in. *)
Fixpoint newDatasetPathTree (comp : string) (rest : list string) : datasetPathTree :=
  match rest with
  | [] => Tree comp false []
  | c :: rest' => Tree comp true [newDatasetPathTree c rest']
  end.

Fixpoint tree_Add (t : datasetPathTree) (p : list string) {struct t} : option datasetPathTree :=
  match t, p with
  | _, [] => Some t
  | Tree comp filledIn children, c :: remainder =>
    if String.eqb c comp then
      match remainder with
      | [] => Some (Tree comp false children)
      | r :: rs =>
        let fix try (cs : list datasetPathTree) : option (list datasetPathTree) :=
          match cs with
          | [] => None
          | ch :: cs' =>
            match tree_Add ch remainder with
            | Some ch' => Some (ch' :: cs')
            | None => option_map (cons ch) (try cs')
            end
          end in
        match try children with
        | Some children' => Some (Tree comp filledIn children')
        | None => Some (Tree comp filledIn (children ++ [newDatasetPathTree r rs]))
        end
      end
    else None
  end.

Fixpoint roots_Add (roots : list datasetPathTree) (p : list string) : option (list datasetPathTree) :=
  match roots with
  | [] => None
  | r :: roots' =>
    match tree_Add r p with
    | Some r' => Some (r' :: roots')
    | None => option_map (cons r) (roots_Add roots' p)
    end
  end.

(** Modelled from the spec: adding a path to the forest.  The first root that
    shares the path's first component takes it, otherwise the path becomes a
    new root.  A [DatasetPath] has at least one component (the spec's
    invariant); the empty path adds nothing. *)
Definition Add (f : DatasetPathForest) (p : DatasetPath) : DatasetPathForest :=
  match p with
  | [] => f
  | c :: rest =>
    match roots_Add f p with
    | Some f' => f'
    | None => f ++ [newDatasetPathTree c rest]
    end
  end.

End zfs.

(** ** Package pdu: the messages of the wire protocol *)

Module pdu.

Module Filesystem.
Record t : Type := { Path : string; ResumeToken : string }.
End Filesystem.

Inductive FilesystemVersion_VersionType : Type :=
| FilesystemVersion_Snapshot
| FilesystemVersion_Bookmark.

Module FilesystemVersion.
Record t : Type := {
  Type' : FilesystemVersion_VersionType;
  Name : string;
  Guid : Z;
  CreateTXG : Z;
  Creation : string
}.
End FilesystemVersion.

Module ListFilesystemReq.
Record t : Type := { }.
End ListFilesystemReq.

Module ListFilesystemRes.
Record t : Type := { Filesystems : list Filesystem.t }.
End ListFilesystemRes.

Module ListFilesystemVersionsReq.
Record t : Type := { Filesystem : string }.
End ListFilesystemVersionsReq.

Module ListFilesystemVersionsRes.
Record t : Type := { Versions : list FilesystemVersion.t }.
End ListFilesystemVersionsRes.

Module SendReq.
Record t : Type := { Filesystem : string; From : string; To : string }.
End SendReq.

Module SendRes.
Record t : Type := { ExpectedSize : Z }.
End SendRes.

Module ReceiveReq.
Record t : Type := { Filesystem : string }.
End ReceiveReq.

Module ReceiveRes.
Record t : Type := { }.
End ReceiveRes.

Module DestroySnapshotsReq.
Record t : Type := { Filesystem : string; Snapshots : list FilesystemVersion.t }.
End DestroySnapshotsReq.

Module DestroySnapshotRes.
Record t : Type := { Snapshot : FilesystemVersion.t; Error : string }.
End DestroySnapshotRes.

Module DestroySnapshotsRes.
Record t : Type := { Results : list DestroySnapshotRes.t }.
End DestroySnapshotsRes.

Inductive SnapshotReplicationStatusReq_Op : Type :=
| SnapshotReplicationStatusReq_Get
| SnapshotReplicationStatusReq_SetReplicated
| SnapshotReplicationStatusReq_Unknown (code : Z).

Module SnapshotReplicationStatusReq.
Record t : Type := {
  Filesystem : string;
  Snapshot : string;
  Op : SnapshotReplicationStatusReq_Op
}.
End SnapshotReplicationStatusReq.

Module SnapshotReplicationStatusRes.
Record t : Type := { Replicated : bool }.
End SnapshotReplicationStatusRes.

End pdu.

(** ** Calls that leave the package *)

Inductive Event : Type :=
| EvZFSListMapping
| EvZFSListFilesystemVersions (fs : zfs.DatasetPath)
| EvZFSSendDry (fs from_ to_ : string)
| EvZFSSend (fs from_ to_ : string)
| EvZFSGet (fs : zfs.DatasetPath) (props : list string) (res : result zfs.ZFSProperties)
| EvZFSCreatePlaceholderFilesystem (fs : zfs.DatasetPath) (res : option error)
| EvZFSRecv (fs : string) (stream : ReadCloser) (args : list string) (res : option error)
| EvZFSDestroyFilesystemVersion (fs : zfs.DatasetPath) (v : zfs.FilesystemVersion) (res : option error)
| EvZFSGetReplicatedProperty (fs : zfs.DatasetPath) (v : zfs.FilesystemVersion)
| EvZFSSetReplicatedProperty (fs : zfs.DatasetPath) (v : zfs.FilesystemVersion) (replicated : bool)
| EvInvert
| EvClose (s : Stream)
| EvRequestReply (endpoint : string) (req : bytes) (stream : ReadCloser).

(** ** The state-and-trace monad

    A computation takes the world it runs in and returns its value, the world
    it leaves and the calls it made. *)

Definition M (W A : Type) : Type := W -> A * W * list Event.

Definition ret {W A : Type} (a : A) : M W A :=
  fun w => (a, w, []).

Definition bind {W A B : Type} (m : M W A) (f : A -> M W B) : M W B :=
  fun w =>
    let '(a, w1, t1) := m w in
    let '(b, w2, t2) := f a w1 in
    (b, w2, t1 ++ t2).

Notation "x <- m ;; k" := (bind m (fun x => k))
  (at level 100, m at next level, right associativity).

(** An outside call: run [op] on the world and record [ev] of its answer. *)
Definition call {W A : Type} (ev : A -> Event) (op : W -> A * W) : M W A :=
  fun w => let '(a, w1) := op w in (a, w1, [ev a]).

(** [defer cleanup] before [body]: [cleanup] runs when [body] has returned. *)
Definition defer {W A : Type} (cleanup : M W unit) (body : M W A) : M W A :=
  r <- body ;; _ <- cleanup ;; ret r.

(** [rc.Close()] on an open stream. *)
Definition Close {W : Type} (s : Stream) : M W unit :=
  fun w => (tt, w, [EvClose s]).

Definition value {W A : Type} (r : A * W * list Event) : A := fst (fst r).
Definition world {W A : Type} (r : A * W * list Event) : W := snd (fst r).
Definition trace {W A : Type} (r : A * W * list Event) : list Event := snd r.

(** ** Walking the forest

    Modelled from the spec: [DatasetPathForest.WalkTopDown], the top-down walk
    of the tree.  The visitor is called on a node before its children and
    answers whether to visit the child tree ([visitChildTree] in the source).
    The variables a Go closure captures and assigns are threaded as [S]. *)

Section Walk.
Context {W S : Type}.
Variable visitor : S -> zfs.DatasetPathVisit -> M W (bool * S).

Fixpoint tree_WalkTopDown (t : zfs.datasetPathTree) (parent : list string) (s : S)
  {struct t} : M W S :=
  match t with
  | zfs.Tree comp filledIn children =>
    let this := parent ++ [comp] in
    r <- visitor s {| zfs.Path := this; zfs.FilledIn := filledIn |} ;;
    if fst r then
      (fix walk_children (cs : list zfs.datasetPathTree) (s1 : S) {struct cs} : M W S :=
         match cs with
         | [] => ret s1
         | c :: cs' => s2 <- tree_WalkTopDown c this s1 ;; walk_children cs' s2
         end) children (snd r)
    else ret (snd r)
  end.

Fixpoint WalkTopDown (roots : zfs.DatasetPathForest) (s : S) : M W S :=
  match roots with
  | [] => ret s
  | r :: roots' => s1 <- tree_WalkTopDown r [] s ;; WalkTopDown roots' s1
  end.

End Walk.

(** ** What the package imports

    [Lib] gathers the pure helpers of packages [zfs] and [pdu] and the text of
    an error; [Backend] the operations of the filesystem engine on a world
    [W]. *)

Record Lib : Type := {
  NewDatasetPath : string -> result zfs.DatasetPath;
  ToString : zfs.DatasetPath -> string;
  ZREPL_PLACEHOLDER_PROPERTY_NAME : string;
  IsPlaceholder : zfs.DatasetPath -> string -> bool * option error;
  FilesystemVersionFromZFS : zfs.FilesystemVersion -> pdu.FilesystemVersion.t;
  ZFSFilesystemVersion : pdu.FilesystemVersion.t -> result zfs.FilesystemVersion;
  Error : error -> string
}.

Record Backend (W : Type) : Type := {
  run_ZFSListMapping : zfs.DatasetFilter -> W -> result (list zfs.DatasetPath) * W;
  run_ZFSListFilesystemVersions :
    zfs.DatasetPath -> zfs.FilesystemVersionFilter -> W -> result (list zfs.FilesystemVersion) * W;
  run_ZFSSendDry : string -> string -> string -> W -> result Z * W;
  run_ZFSSend : string -> string -> string -> W -> result ReadCloser * W;
  run_ZFSGet : zfs.DatasetPath -> list string -> W -> result zfs.ZFSProperties * W;
  run_ZFSCreatePlaceholderFilesystem : zfs.DatasetPath -> W -> option error * W;
  run_ZFSRecv : string -> ReadCloser -> list string -> W -> option error * W;
  run_ZFSDestroyFilesystemVersion : zfs.DatasetPath -> zfs.FilesystemVersion -> W -> option error * W;
  run_ZFSGetReplicatedProperty : zfs.DatasetPath -> zfs.FilesystemVersion -> W -> result bool * W;
  run_ZFSSetReplicatedProperty : zfs.DatasetPath -> zfs.FilesystemVersion -> bool -> W -> option error * W
}.
Arguments run_ZFSListMapping {W} _.
Arguments run_ZFSListFilesystemVersions {W} _.
Arguments run_ZFSSendDry {W} _.
Arguments run_ZFSSend {W} _.
Arguments run_ZFSGet {W} _.
Arguments run_ZFSCreatePlaceholderFilesystem {W} _.
Arguments run_ZFSRecv {W} _.
Arguments run_ZFSDestroyFilesystemVersion {W} _.
Arguments run_ZFSGetReplicatedProperty {W} _.
Arguments run_ZFSSetReplicatedProperty {W} _.

Section BackendCalls.
Context {W : Type} (B : Backend W).

Definition ZFSListMapping (f : zfs.DatasetFilter) : M W (result (list zfs.DatasetPath)) :=
  call (fun _ => EvZFSListMapping) (run_ZFSListMapping B f).

Definition ZFSListFilesystemVersions (fs : zfs.DatasetPath) (f : zfs.FilesystemVersionFilter)
  : M W (result (list zfs.FilesystemVersion)) :=
  call (fun _ => EvZFSListFilesystemVersions fs) (run_ZFSListFilesystemVersions B fs f).

Definition ZFSSendDry (fs from_ to_ : string) : M W (result Z) :=
  call (fun _ => EvZFSSendDry fs from_ to_) (run_ZFSSendDry B fs from_ to_).

Definition ZFSSend (fs from_ to_ : string) : M W (result ReadCloser) :=
  call (fun _ => EvZFSSend fs from_ to_) (run_ZFSSend B fs from_ to_).

Definition ZFSGet (fs : zfs.DatasetPath) (props : list string) : M W (result zfs.ZFSProperties) :=
  call (EvZFSGet fs props) (run_ZFSGet B fs props).

Definition ZFSCreatePlaceholderFilesystem (fs : zfs.DatasetPath) : M W (option error) :=
  call (EvZFSCreatePlaceholderFilesystem fs) (run_ZFSCreatePlaceholderFilesystem B fs).

Definition ZFSRecv (fs : string) (stream : ReadCloser) (args : list string) : M W (option error) :=
  call (EvZFSRecv fs stream args) (run_ZFSRecv B fs stream args).

Definition ZFSDestroyFilesystemVersion (fs : zfs.DatasetPath) (v : zfs.FilesystemVersion)
  : M W (option error) :=
  call (EvZFSDestroyFilesystemVersion fs v) (run_ZFSDestroyFilesystemVersion B fs v).

Definition ZFSGetReplicatedProperty (fs : zfs.DatasetPath) (v : zfs.FilesystemVersion)
  : M W (result bool) :=
  call (fun _ => EvZFSGetReplicatedProperty fs v) (run_ZFSGetReplicatedProperty B fs v).

Definition ZFSSetReplicatedProperty (fs : zfs.DatasetPath) (v : zfs.FilesystemVersion)
  (replicated : bool) : M W (option error) :=
  call (fun _ => EvZFSSetReplicatedProperty fs v replicated)
       (run_ZFSSetReplicatedProperty B fs v replicated).

End BackendCalls.

(** ** Batch destruction of snapshots ([doDestroySnapshots]) *)

Section Destroy.
Context {W : Type} (L : Lib) (B : Backend W).

(** The first loop: every requested version must be a snapshot and convert to
    a [zfs.FilesystemVersion]; the first one that does not ends the call. *)
Fixpoint convertSnaps (snaps : list pdu.FilesystemVersion.t) : result (list zfs.FilesystemVersion) :=
  match snaps with
  | [] => Ok []
  | fsv :: rest =>
    match pdu.FilesystemVersion.Type' fsv with
    | pdu.FilesystemVersion_Snapshot =>
      match ZFSFilesystemVersion L fsv with
      | Err err => Err err
      | Ok v =>
        match convertSnaps rest with
        | Err err => Err err
        | Ok vs => Ok (v :: vs)
        end
      end
    | _ => Err (Errorf "version %q is not a snapshot" [pdu.FilesystemVersion.Name fsv])
    end
  end.

(** The second loop: destroy each snapshot and keep the text of its error. *)
Fixpoint destroyEach (lp : zfs.DatasetPath) (fsvs : list zfs.FilesystemVersion)
  : M W (list pdu.DestroySnapshotRes.t) :=
  match fsvs with
  | [] => ret []
  | fsv :: rest =>
    err <- ZFSDestroyFilesystemVersion B lp fsv ;;
    let errMsg := match err with Some e => Error L e | None => "" end in
    results <- destroyEach lp rest ;;
    ret ({| pdu.DestroySnapshotRes.Snapshot := FilesystemVersionFromZFS L fsv;
            pdu.DestroySnapshotRes.Error := errMsg |} :: results)
  end.

Definition doDestroySnapshots (lp : zfs.DatasetPath) (snaps : list pdu.FilesystemVersion.t)
  : M W (result pdu.DestroySnapshotsRes.t) :=
  match convertSnaps snaps with
  | Err err => ret (Err err)
  | Ok fsvs =>
    results <- destroyEach lp fsvs ;;
    ret (Ok {| pdu.DestroySnapshotsRes.Results := results |})
  end.

End Destroy.

(** ** The sending endpoint *)

Module Sender.

Record t : Type := {
  FSFilter : zfs.DatasetFilter;
  FilesystemVersionFilter : zfs.FilesystemVersionFilter
}.

Definition NewSender (fsf : zfs.DatasetFilter) (fsvf : zfs.FilesystemVersionFilter) : t :=
  {| FSFilter := fsf; FilesystemVersionFilter := fsvf |}.

Section Methods.
Context {W : Type} (L : Lib) (B : Backend W).

Definition ListFilesystems (p : t) : M W (result (list pdu.Filesystem.t)) :=
  r <- ZFSListMapping B (FSFilter p) ;;
  match r with
  | Err err => ret (Err err)
  | Ok fss =>
    ret (Ok (map (fun fs => {| pdu.Filesystem.Path := ToString L fs;
                               pdu.Filesystem.ResumeToken := "" |}) fss))
  end.

Definition ListFilesystemVersions (p : t) (fs : string)
  : M W (result (list pdu.FilesystemVersion.t)) :=
  match NewDatasetPath L fs with
  | Err err => ret (Err err)
  | Ok dp =>
    match FSFilter p dp with
    | Err err => ret (Err err)
    | Ok pass =>
      if negb pass then ret (Err (NewFilteredError fs))
      else
        r <- ZFSListFilesystemVersions B dp (FilesystemVersionFilter p) ;;
        match r with
        | Err err => ret (Err err)
        | Ok fsvs => ret (Ok (map (FilesystemVersionFromZFS L) fsvs))
        end
    end
  end.

Definition Send (p : t) (r : pdu.SendReq.t) : M W (result (pdu.SendRes.t * ReadCloser)) :=
  match NewDatasetPath L (pdu.SendReq.Filesystem r) with
  | Err err => ret (Err err)
  | Ok dp =>
    match FSFilter p dp with
    | Err err => ret (Err err)
    | Ok pass =>
      if negb pass then ret (Err (NewFilteredError (pdu.SendReq.Filesystem r)))
      else
        size <- ZFSSendDry B (pdu.SendReq.Filesystem r) (pdu.SendReq.From r) (pdu.SendReq.To r) ;;
        match size with
        | Err err => ret (Err err)
        | Ok size =>
          stream <- ZFSSend B (pdu.SendReq.Filesystem r) (pdu.SendReq.From r) (pdu.SendReq.To r) ;;
          match stream with
          | Err err => ret (Err err)
          | Ok stream => ret (Ok ({| pdu.SendRes.ExpectedSize := size |}, stream))
          end
        end
    end
  end.

Definition DestroySnapshots (p : t) (req : pdu.DestroySnapshotsReq.t)
  : M W (result pdu.DestroySnapshotsRes.t) :=
  match NewDatasetPath L (pdu.DestroySnapshotsReq.Filesystem req) with
  | Err err => ret (Err err)
  | Ok dp =>
    match FSFilter p dp with
    | Err err => ret (Err err)
    | Ok pass =>
      if negb pass then ret (Err (NewFilteredError (pdu.DestroySnapshotsReq.Filesystem req)))
      else doDestroySnapshots L B dp (pdu.DestroySnapshotsReq.Snapshots req)
    end
  end.

Definition SnapshotReplicationStatus (p : t) (req : pdu.SnapshotReplicationStatusReq.t)
  : M W (result pdu.SnapshotReplicationStatusRes.t) :=
  match NewDatasetPath L (pdu.SnapshotReplicationStatusReq.Filesystem req) with
  | Err err => ret (Err err)
  | Ok dp =>
    match FSFilter p dp with
    | Err err => ret (Err err)
    | Ok pass =>
      if negb pass
      then ret (Err (NewFilteredError (pdu.SnapshotReplicationStatusReq.Filesystem req)))
      else
        let version := {| zfs.Type' := zfs.Snapshot;
                          zfs.Name := pdu.SnapshotReplicationStatusReq.Snapshot req;
                          zfs.Guid := 0; zfs.CreateTXG := 0; zfs.Creation := 0 |} in
        match pdu.SnapshotReplicationStatusReq.Op req with
        | pdu.SnapshotReplicationStatusReq_Get =>
          g <- ZFSGetReplicatedProperty B dp version ;;
          match g with
          | Err err => ret (Err err)
          | Ok replicated =>
            ret (Ok {| pdu.SnapshotReplicationStatusRes.Replicated := replicated |})
          end
        | pdu.SnapshotReplicationStatusReq_SetReplicated =>
          err <- ZFSSetReplicatedProperty B dp version true ;;
          match err with
          | Some err => ret (Err err)
          | None => ret (Ok {| pdu.SnapshotReplicationStatusRes.Replicated := true |})
          end
        | pdu.SnapshotReplicationStatusReq_Unknown code =>
          ret (Err (Errorf "unknown opcode %v" [pretty code]))
        end
    end
  end.

End Methods.
End Sender.

(** ** Path policies

    The [FSMap] interface over the type [T] of its implementations: a map is
    also a filter, maps a path to a local path or to none ([nil], access
    denied), and can be inverted. *)

Module FSMap.
Class t (T : Type) : Type := {
  Filter : T -> zfs.DatasetPath -> result bool;
  Map : T -> zfs.DatasetPath -> result (option zfs.DatasetPath);
  Invert : T -> result T;
  AsFilter : T -> zfs.DatasetFilter
}.
End FSMap.

(** ** The receiving endpoint *)

Module Receiver.

Record t (T : Type) : Type := {
  fsmapInv : T;
  fsmap : T;
  fsvf : zfs.FilesystemVersionFilter
}.
Arguments fsmapInv {T} _.
Arguments fsmap {T} _.
Arguments fsvf {T} _.

Section Methods.
Context {W T : Type} {FSMapT : FSMap.t T} (L : Lib) (B : Backend W).

(** The call [fsmap.Invert()], recorded in the trace. *)
Definition Invert (m : T) : M W (result T) :=
  call (fun _ => EvInvert) (fun w => (FSMap.Invert m, w)).

Definition NewReceiver (fsmap : T) (fsvf : zfs.FilesystemVersionFilter) : M W (result (t T)) :=
  r <- Invert fsmap ;;
  match r with
  | Err err => ret (Err err)
  | Ok fsmapInv => ret (Ok {| fsmapInv := fsmapInv; fsmap := fsmap; fsvf := fsvf |})
  end.

(** The loop of [ListFilesystems]: map every listed filesystem back; the
    first error ends it.  [mapped.ToString()] on a nil result panics. *)
Fixpoint mapBack (inv : T) (filtered : list zfs.DatasetPath) : result (list pdu.Filesystem.t) :=
  match filtered with
  | [] => Ok []
  | a :: rest =>
    match FSMap.Map inv a with
    | Err err => Err err
    | Ok None => Err (runtimePanic "nil pointer dereference")
    | Ok (Some mapped) =>
      match mapBack inv rest with
      | Err err => Err err
      | Ok fss =>
        Ok ({| pdu.Filesystem.Path := ToString L mapped; pdu.Filesystem.ResumeToken := "" |} :: fss)
      end
    end
  end.

Definition ListFilesystems (e : t T) : M W (result (list pdu.Filesystem.t)) :=
  r <- ZFSListMapping B (FSMap.AsFilter (fsmapInv e)) ;;
  match r with
  | Err err => ret (Err (withMessage err "error checking client permission"))
  | Ok filtered => ret (mapBack (fsmapInv e) filtered)
  end.

Definition ListFilesystemVersions (e : t T) (fs : string)
  : M W (result (list pdu.FilesystemVersion.t)) :=
  match NewDatasetPath L fs with
  | Err err => ret (Err err)
  | Ok p =>
    match FSMap.Map (fsmap e) p with
    | Err err => ret (Err err)
    | Ok None => ret (Err (errorString "access to filesystem denied"))
    | Ok (Some lp) =>
      r <- ZFSListFilesystemVersions B lp (fsvf e) ;;
      match r with
      | Err err => ret (Err err)
      | Ok fsvs => ret (Ok (map (FilesystemVersionFromZFS L) fsvs))
      end
    end
  end.

(** The visitor of the tree walk in [Receive].  [visitErr] is the variable the
    closure assigns; the answer is [visitChildTree]. *)
Definition visitor (lp : zfs.DatasetPath) (visitErr : option error) (v : zfs.DatasetPathVisit)
  : M W (bool * option error) :=
  if zfs.Equal (zfs.Path v) lp then ret (false, visitErr)
  else
    g <- ZFSGet B (zfs.Path v) [ZREPL_PLACEHOLDER_PROPERTY_NAME L] ;;
    match g with
    | Err _ =>
      (* interpret this as an early exit of the zfs binary due to the fs not existing *)
      c <- ZFSCreatePlaceholderFilesystem B (zfs.Path v) ;;
      match c with
      | Some err => ret (false, Some err)
      | None => ret (true, visitErr)
      end
    | Ok _ => ret (true, visitErr)  (* leave this fs as is *)
    end.

(** "create placeholder parent filesystems as appropriate": the forest of
    [lp] alone, walked top-down; the value is [visitErr]. *)
Definition createPlaceholders (lp : zfs.DatasetPath) : M W (option error) :=
  let visitErr : option error := None in
  let f := zfs.Add zfs.NewDatasetPathForest lp in
  WalkTopDown (visitor lp) f visitErr.

(** [needForceRecv], from the answer of [ZFSGet] on the target. *)
Definition needForceRecv (lp : zfs.DatasetPath) (g : result zfs.ZFSProperties) : bool :=
  match g with
  | Ok props => fst (IsPlaceholder L lp (zfs.Get props (ZREPL_PLACEHOLDER_PROPERTY_NAME L)))
  | Err _ => false
  end.

Definition recvArgs (force : bool) : list string :=
  if force then ["-F"] else [].

Definition Receive (e : t T) (req : pdu.ReceiveReq.t) (sendStream : ReadCloser)
  : M W (option error) :=
  match sendStream with
  | None => ret (Some (runtimePanic "nil pointer dereference"))
  | Some s =>
    defer (Close s)
      match NewDatasetPath L (pdu.ReceiveReq.Filesystem req) with
      | Err err => ret (Some err)
      | Ok p =>
        match FSMap.Map (fsmap e) p with
        | Err err => ret (Some err)
        | Ok None => ret (Some (errorString "receive to filesystem denied"))
        | Ok (Some lp) =>
          visitErr <- createPlaceholders lp ;;
          match visitErr with
          | Some err => ret (Some err)
          | None =>
            g <- ZFSGet B lp [ZREPL_PLACEHOLDER_PROPERTY_NAME L] ;;
            let args := recvArgs (needForceRecv lp g) in
            ZFSRecv B (ToString L lp) sendStream args
          end
        end
      end
  end.

Definition DestroySnapshots (e : t T) (req : pdu.DestroySnapshotsReq.t)
  : M W (result pdu.DestroySnapshotsRes.t) :=
  match NewDatasetPath L (pdu.DestroySnapshotsReq.Filesystem req) with
  | Err err => ret (Err err)
  | Ok dp =>
    match FSMap.Map (fsmap e) dp with
    | Err err => ret (Err err)
    | Ok None => ret (Err (errorString "access to filesystem denied"))
    | Ok (Some lp) => doDestroySnapshots L B lp (pdu.DestroySnapshotsReq.Snapshots req)
    end
  end.

End Methods.
End Receiver.

(** ** RPC stubs *)

Definition RPCListFilesystems : string := "ListFilesystems".
Definition RPCListFilesystemVersions : string := "ListFilesystemVersions".
Definition RPCReceive : string := "Receive".
Definition RPCSend : string := "Send".
Definition RPCSDestroySnapshots : string := "DestroySnapshots".
Definition RPCSnapshotReplicationStatus : string := "SnapshotReplicationStatus".

(** [proto.Marshal] and [proto.Unmarshal] of a message type. *)
Module proto.
Class Message (A : Type) : Type := {
  Marshal : A -> result bytes;
  Unmarshal : bytes -> result A
}.
End proto.

(** The codecs of all messages of the protocol. *)
Class Codec : Type := {
  Codec_ListFilesystemReq :: proto.Message pdu.ListFilesystemReq.t;
  Codec_ListFilesystemRes :: proto.Message pdu.ListFilesystemRes.t;
  Codec_ListFilesystemVersionsReq :: proto.Message pdu.ListFilesystemVersionsReq.t;
  Codec_ListFilesystemVersionsRes :: proto.Message pdu.ListFilesystemVersionsRes.t;
  Codec_SendReq :: proto.Message pdu.SendReq.t;
  Codec_SendRes :: proto.Message pdu.SendRes.t;
  Codec_ReceiveReq :: proto.Message pdu.ReceiveReq.t;
  Codec_ReceiveRes :: proto.Message pdu.ReceiveRes.t;
  Codec_DestroySnapshotsReq :: proto.Message pdu.DestroySnapshotsReq.t;
  Codec_DestroySnapshotsRes :: proto.Message pdu.DestroySnapshotsRes.t;
  Codec_SnapshotReplicationStatusReq :: proto.Message pdu.SnapshotReplicationStatusReq.t;
  Codec_SnapshotReplicationStatusRes :: proto.Message pdu.SnapshotReplicationStatusRes.t
}.

(** [streamrpc.Client]: one request/reply exchange on a connection [C]. *)
Module streamrpc.
Record Client (C : Type) : Type := {
  run_RequestReply : string -> bytes -> ReadCloser -> C -> result (bytes * ReadCloser) * C
}.
Arguments run_RequestReply {C} _.

Definition RequestReply {C : Type} (c : Client C) (endpoint : string) (b : bytes)
  (stream : ReadCloser) : M C (result (bytes * ReadCloser)) :=
  call (fun _ => EvRequestReply endpoint b stream) (run_RequestReply c endpoint b stream).
End streamrpc.

(** Remote implements an endpoint stub that uses streamrpc as a transport. *)
Module Remote.
Section Methods.
Context {C : Type} {codec : Codec} (c : streamrpc.Client C).

Definition ListFilesystems : M C (result (list pdu.Filesystem.t)) :=
  let req := pdu.ListFilesystemReq.Build_t in
  match proto.Marshal req with
  | Err err => ret (Err err)
  | Ok b =>
    r <- streamrpc.RequestReply c RPCListFilesystems b None ;;
    match r with
    | Err err => ret (Err err)
    | Ok (rb, Some rs) =>
      _ <- Close rs ;;
      ret (Err (errorString "response contains unexpected stream"))
    | Ok (rb, None) =>
      match proto.Unmarshal rb with
      | Err err => ret (Err err)
      | Ok res => ret (Ok (pdu.ListFilesystemRes.Filesystems res))
      end
    end
  end.

Definition ListFilesystemVersions (fs : string) : M C (result (list pdu.FilesystemVersion.t)) :=
  let req := {| pdu.ListFilesystemVersionsReq.Filesystem := fs |} in
  match proto.Marshal req with
  | Err err => ret (Err err)
  | Ok b =>
    r <- streamrpc.RequestReply c RPCListFilesystemVersions b None ;;
    match r with
    | Err err => ret (Err err)
    | Ok (rb, Some rs) =>
      _ <- Close rs ;;
      ret (Err (errorString "response contains unexpected stream"))
    | Ok (rb, None) =>
      match proto.Unmarshal rb with
      | Err err => ret (Err err)
      | Ok res => ret (Ok (pdu.ListFilesystemVersionsRes.Versions res))
      end
    end
  end.

Definition Send (r : pdu.SendReq.t) : M C (result (pdu.SendRes.t * ReadCloser)) :=
  match proto.Marshal r with
  | Err err => ret (Err err)
  | Ok b =>
    rr <- streamrpc.RequestReply c RPCSend b None ;;
    match rr with
    | Err err => ret (Err err)
    | Ok (rb, None) => ret (Err (errorString "response does not contain a stream"))
    | Ok (rb, Some rs) =>
      match proto.Unmarshal rb with
      | Err err => _ <- Close rs ;; ret (Err err)
      | Ok res => ret (Ok (res, Some rs))
      end
    end
  end.

Definition Receive (r : pdu.ReceiveReq.t) (sendStream : ReadCloser) : M C (option error) :=
  match sendStream with
  | None => ret (Some (runtimePanic "nil pointer dereference"))
  | Some s =>
    defer (Close s)
      match proto.Marshal r with
      | Err err => ret (Some err)
      | Ok b =>
        rr <- streamrpc.RequestReply c RPCReceive b sendStream ;;
        match rr with
        | Err err => ret (Some err)
        | Ok (rb, Some rs) =>
          _ <- Close rs ;;
          ret (Some (errorString "response contains unexpected stream"))
        | Ok (rb, None) =>
          match proto.Unmarshal (A := pdu.ReceiveRes.t) rb with
          | Err err => ret (Some err)
          | Ok _ => ret None
          end
        end
      end
  end.

Definition DestroySnapshots (r : pdu.DestroySnapshotsReq.t)
  : M C (result pdu.DestroySnapshotsRes.t) :=
  match proto.Marshal r with
  | Err err => ret (Err err)
  | Ok b =>
    rr <- streamrpc.RequestReply c RPCSDestroySnapshots b None ;;
    match rr with
    | Err err => ret (Err err)
    | Ok (rb, Some rs) =>
      _ <- Close rs ;;
      ret (Err (errorString "response contains unexpected stream"))
    | Ok (rb, None) =>
      match proto.Unmarshal rb with
      | Err err => ret (Err err)
      | Ok res => ret (Ok res)
      end
    end
  end.

End Methods.
End Remote.

(** ** The endpoint interfaces of package replication

    A [replication.Endpoint] may in addition be a [replication.Sender] or a
    [replication.Receiver]; the type assertions [ep.(replication.Sender)] and
    [ep.(replication.Receiver)] are [asSender] and [asReceiver]. *)

Module replication.

Record Sender (W : Type) : Type := {
  Send : pdu.SendReq.t -> M W (result (pdu.SendRes.t * ReadCloser));
  SnapshotReplicationStatus :
    pdu.SnapshotReplicationStatusReq.t -> M W (result pdu.SnapshotReplicationStatusRes.t)
}.
Arguments Send {W} _.
Arguments SnapshotReplicationStatus {W} _.

Record Receiver (W : Type) : Type := {
  Receive : pdu.ReceiveReq.t -> ReadCloser -> M W (option error)
}.
Arguments Receive {W} _.

Record Endpoint (W : Type) : Type := {
  ListFilesystems : M W (result (list pdu.Filesystem.t));
  ListFilesystemVersions : string -> M W (result (list pdu.FilesystemVersion.t));
  DestroySnapshots : pdu.DestroySnapshotsReq.t -> M W (result pdu.DestroySnapshotsRes.t);
  asSender : option (Sender W);
  asReceiver : option (Receiver W)
}.
Arguments ListFilesystems {W} _.
Arguments ListFilesystemVersions {W} _.
Arguments DestroySnapshots {W} _.
Arguments asSender {W} _.
Arguments asReceiver {W} _.

End replication.

(** The local endpoints as [replication.Endpoint]s. *)
Definition SenderEndpoint {W : Type} (L : Lib) (B : Backend W) (p : Sender.t)
  : replication.Endpoint W :=
  {| replication.ListFilesystems := Sender.ListFilesystems L B p;
     replication.ListFilesystemVersions := Sender.ListFilesystemVersions L B p;
     replication.DestroySnapshots := Sender.DestroySnapshots L B p;
     replication.asSender :=
       Some {| replication.Send := Sender.Send L B p;
               replication.SnapshotReplicationStatus := Sender.SnapshotReplicationStatus L B p |};
     replication.asReceiver := None |}.

Definition ReceiverEndpoint {W T : Type} {FSMapT : FSMap.t T} (L : Lib) (B : Backend W)
  (e : Receiver.t T) : replication.Endpoint W :=
  {| replication.ListFilesystems := Receiver.ListFilesystems L B e;
     replication.ListFilesystemVersions := Receiver.ListFilesystemVersions L B e;
     replication.DestroySnapshots := Receiver.DestroySnapshots L B e;
     replication.asSender := None;
     replication.asReceiver := Some {| replication.Receive := Receiver.Receive L B e |} |}.

(** Handler implements the server-side streamrpc.HandlerFunc for a Remote
    endpoint stub. *)
Module Handler.

Record t (W : Type) : Type := { ep : replication.Endpoint W }.
Arguments ep {W} _.

Definition NewHandler {W : Type} (ep : replication.Endpoint W) : t W := {| ep := ep |}.

Section Handle.
Context {W : Type} {codec : Codec}.

(** The label [Err] all arms without a handler jump or fall to. *)
Definition noHandler : M W (result (bytes * ReadCloser)) :=
  ret (Err (errorString "no handler for given endpoint")).

Definition Handle (a : t W) (endpoint : string) (reqStructured : bytes) (reqStream : ReadCloser)
  : M W (result (bytes * ReadCloser)) :=
  if String.eqb endpoint RPCListFilesystems then
    match proto.Unmarshal (A := pdu.ListFilesystemReq.t) reqStructured with
    | Err err => ret (Err err)
    | Ok req =>
      r <- replication.ListFilesystems (ep a) ;;
      match r with
      | Err err => ret (Err err)
      | Ok fsses =>
        let res := {| pdu.ListFilesystemRes.Filesystems := fsses |} in
        match proto.Marshal res with
        | Err err => ret (Err err)
        | Ok b => ret (Ok (b, None))
        end
      end
    end
  else if String.eqb endpoint RPCListFilesystemVersions then
    match proto.Unmarshal (A := pdu.ListFilesystemVersionsReq.t) reqStructured with
    | Err err => ret (Err err)
    | Ok req =>
      r <- replication.ListFilesystemVersions (ep a) (pdu.ListFilesystemVersionsReq.Filesystem req) ;;
      match r with
      | Err err => ret (Err err)
      | Ok fsvs =>
        let res := {| pdu.ListFilesystemVersionsRes.Versions := fsvs |} in
        match proto.Marshal res with
        | Err err => ret (Err err)
        | Ok b => ret (Ok (b, None))
        end
      end
    end
  else if String.eqb endpoint RPCSend then
    match replication.asSender (ep a) with
    | None => noHandler
    | Some sender =>
      match proto.Unmarshal (A := pdu.SendReq.t) reqStructured with
      | Err err => ret (Err err)
      | Ok req =>
        r <- replication.Send sender req ;;
        match r with
        | Err err => ret (Err err)
        | Ok (res, sendStream) =>
          match proto.Marshal res with
          | Err err => ret (Err err)
          | Ok b => ret (Ok (b, sendStream))
          end
        end
      end
    end
  else if String.eqb endpoint RPCReceive then
    match replication.asReceiver (ep a) with
    | None => noHandler
    | Some receiver =>
      match proto.Unmarshal (A := pdu.ReceiveReq.t) reqStructured with
      | Err err => ret (Err err)
      | Ok req =>
        err <- replication.Receive receiver req reqStream ;;
        match err with
        | Some err => ret (Err err)
        | None =>
          match proto.Marshal pdu.ReceiveRes.Build_t with
          | Err err => ret (Err err)
          | Ok b => ret (Ok (b, None))
          end
        end
      end
    end
  else if String.eqb endpoint RPCSDestroySnapshots then
    match proto.Unmarshal (A := pdu.DestroySnapshotsReq.t) reqStructured with
    | Err err => ret (Err err)
    | Ok req =>
      r <- replication.DestroySnapshots (ep a) req ;;
      match r with
      | Err err => ret (Err err)
      | Ok res =>
        match proto.Marshal res with
        | Err err => ret (Err err)
        | Ok b => ret (Ok (b, None))
        end
      end
    end
  else if String.eqb endpoint RPCSnapshotReplicationStatus then
    match replication.asSender (ep a) with
    | None => noHandler
    | Some sender =>
      match proto.Unmarshal (A := pdu.SnapshotReplicationStatusReq.t) reqStructured with
      | Err err => ret (Err err)
      | Ok req =>
        r <- replication.SnapshotReplicationStatus sender req ;;
        match r with
        | Err err => ret (Err err)
        | Ok res =>
          match proto.Marshal res with
          | Err err => ret (Err err)
          | Ok b => ret (Ok (b, None))
          end
        end
      end
    end
  else noHandler.

End Handle.
End Handler.

(** ** A filesystem engine in memory

    A small engine to run the endpoints on: the existing filesystems with the
    value of their placeholder property, the existing snapshots, and the
    filesystems whose properties cannot be read (an injected fault). *)

Module memfs.

Record World : Type := {
  datasets : gmap (list string) string;
  snapshots : list (list string * string);
  ioFaults : list (list string);
  received : list (string * list string)
}.

Fixpoint splitSlash (s : string) : list string :=
  match s with
  | EmptyString => [""]
  | String a s' =>
    if Ascii.eqb a "/"%char then "" :: splitSlash s'
    else
      match splitSlash s' with
      | [] => [String a ""]
      | c :: cs => String a c :: cs
      end
  end.

Definition newDatasetPath (s : string) : result zfs.DatasetPath :=
  if String.eqb s "" then Ok []
  else
    let comps := splitSlash s in
    if String.eqb (List.last comps "") "" then Err (errorString "must not end with a '/'")
    else Ok comps.

Definition toString (p : zfs.DatasetPath) : string := String.concat "/" p.

Definition placeholderName : string := "zrepl:placeholder".

Definition isPlaceholder (p : zfs.DatasetPath) (v : string) : bool * option error :=
  if String.eqb v "on" then (true, None)
  else (false, Some (Errorf "expected: %s; got %s" ["on"; v])).

Definition fromZFS (v : zfs.FilesystemVersion) : pdu.FilesystemVersion.t :=
  {| pdu.FilesystemVersion.Type' :=
       match zfs.Type' v with
       | zfs.Snapshot => pdu.FilesystemVersion_Snapshot
       | zfs.Bookmark => pdu.FilesystemVersion_Bookmark
       end;
     pdu.FilesystemVersion.Name := zfs.Name v;
     pdu.FilesystemVersion.Guid := zfs.Guid v;
     pdu.FilesystemVersion.CreateTXG := zfs.CreateTXG v;
     pdu.FilesystemVersion.Creation := "" |}.

(** The conversion parses the creation time; here only the empty one parses. *)
Definition toZFS (v : pdu.FilesystemVersion.t) : result zfs.FilesystemVersion :=
  if String.eqb (pdu.FilesystemVersion.Creation v) "" then
    Ok {| zfs.Type' :=
            match pdu.FilesystemVersion.Type' v with
            | pdu.FilesystemVersion_Snapshot => zfs.Snapshot
            | pdu.FilesystemVersion_Bookmark => zfs.Bookmark
            end;
          zfs.Name := pdu.FilesystemVersion.Name v;
          zfs.Guid := pdu.FilesystemVersion.Guid v;
          zfs.CreateTXG := pdu.FilesystemVersion.CreateTXG v;
          zfs.Creation := 0 |}
  else Err (Errorf "parsing time %q" [pdu.FilesystemVersion.Creation v]).

Fixpoint errorText (e : error) : string :=
  match e with
  | FilteredError fs => String.append "endpoint does not allow access to filesystem " fs
  | DatasetDoesNotExist path => String.append "dataset does not exist: " path
  | errorString msg => msg
  | Errorf format _ => format
  | withMessage cause msg => String.append msg (String.append ": " (errorText cause))
  | runtimePanic what => what
  end.

Definition lib : Lib :=
  {| NewDatasetPath := newDatasetPath;
     ToString := toString;
     ZREPL_PLACEHOLDER_PROPERTY_NAME := placeholderName;
     IsPlaceholder := isPlaceholder;
     FilesystemVersionFromZFS := fromZFS;
     ZFSFilesystemVersion := toZFS;
     Error := errorText |}.

Definition hasPath (l : list (list string)) (p : list string) : bool :=
  existsb (zfs.Equal p) l.

Definition isSnapshot (fs : list string) (name : string) (s : list string * string) : bool :=
  zfs.Equal fs (fst s) && String.eqb name (snd s).

Fixpoint filterPaths (f : zfs.DatasetFilter) (l : list (list string)) : result (list (list string)) :=
  match l with
  | [] => Ok []
  | p :: rest =>
    match f p with
    | Err err => Err err
    | Ok pass =>
      match filterPaths f rest with
      | Err err => Err err
      | Ok ps => Ok (if pass then p :: ps else ps)
      end
    end
  end.

Definition get (fs : zfs.DatasetPath) (props : list string) (w : World)
  : result zfs.ZFSProperties * World :=
  if hasPath (ioFaults w) fs then (Err (errorString "cannot open dataset: I/O error"), w)
  else
    match datasets w !! fs with
    | Some v => (Ok {[ placeholderName := v ]}, w)
    | None => (Err (DatasetDoesNotExist (toString fs)), w)
    end.

Definition createPlaceholder (fs : zfs.DatasetPath) (w : World) : option error * World :=
  match datasets w !! fs with
  | Some _ => (Some (errorString "cannot create dataset: dataset already exists"), w)
  | None =>
    (None, {| datasets := <[ fs := "on" ]> (datasets w); snapshots := snapshots w;
              ioFaults := ioFaults w; received := received w |})
  end.

Definition recv (fs : string) (stream : ReadCloser) (args : list string) (w : World)
  : option error * World :=
  (None, {| datasets := datasets w; snapshots := snapshots w;
            ioFaults := ioFaults w; received := received w ++ [(fs, args)] |}).

Definition destroy (fs : zfs.DatasetPath) (v : zfs.FilesystemVersion) (w : World)
  : option error * World :=
  if existsb (isSnapshot fs (zfs.Name v)) (snapshots w) then
    (None, {| datasets := datasets w;
              snapshots := List.filter (fun s => negb (isSnapshot fs (zfs.Name v) s)) (snapshots w);
              ioFaults := ioFaults w; received := received w |})
  else (Some (errorString "could not find any snapshots to destroy"), w).

Definition versionsOf (fs : zfs.DatasetPath) (w : World) : list zfs.FilesystemVersion :=
  List.map (fun s => {| zfs.Type' := zfs.Snapshot; zfs.Name := snd s;
                        zfs.Guid := 0; zfs.CreateTXG := 0; zfs.Creation := 0 |})
           (List.filter (fun s => zfs.Equal fs (fst s)) (snapshots w)).

Definition backend : Backend World :=
  {| run_ZFSListMapping := fun f w => (filterPaths f (List.map fst (map_to_list (datasets w))), w);
     run_ZFSListFilesystemVersions := fun fs _ w => (Ok (versionsOf fs w), w);
     run_ZFSSendDry := fun _ _ _ w => (Ok 0%Z, w);
     run_ZFSSend := fun _ _ _ w => (Ok (Some 7%nat), w);
     run_ZFSGet := get;
     run_ZFSCreatePlaceholderFilesystem := createPlaceholder;
     run_ZFSRecv := recv;
     run_ZFSDestroyFilesystemVersion := destroy;
     run_ZFSGetReplicatedProperty := fun _ _ w => (Ok false, w);
     run_ZFSSetReplicatedProperty := fun _ _ _ w => (None, w) |}.

(** Path maps that prepend a root, strip it again, or map nothing at all (and
    then cannot be inverted). *)
Inductive prefixMap : Type :=
| Prepend (root : list string)
| Strip (root : list string)
| Deny.

Fixpoint stripPrefix (root p : list string) : option (list string) :=
  match root, p with
  | [], _ => Some p
  | r :: root', c :: p' => if String.eqb r c then stripPrefix root' p' else None
  | _ :: _, [] => None
  end.

Definition mapPath (m : prefixMap) (p : zfs.DatasetPath) : result (option zfs.DatasetPath) :=
  match m with
  | Prepend root => Ok (Some (root ++ p))
  | Strip root => Ok (stripPrefix root p)
  | Deny => Ok None
  end.

Definition filterPath (m : prefixMap) (p : zfs.DatasetPath) : result bool :=
  match mapPath m p with
  | Ok (Some _) => Ok true
  | Ok None => Ok false
  | Err err => Err err
  end.

Definition invert (m : prefixMap) : result prefixMap :=
  match m with
  | Prepend root => Ok (Strip root)
  | Strip root => Ok (Prepend root)
  | Deny => Err (errorString "mapping is not invertible")
  end.

#[global] Instance prefixMap_FSMap : FSMap.t prefixMap :=
  {| FSMap.Filter := filterPath;
     FSMap.Map := mapPath;
     FSMap.Invert := invert;
     FSMap.AsFilter := filterPath |}.

Definition acceptAll : zfs.FilesystemVersionFilter := fun _ => Ok true.

(** A codec that encodes every message as the empty buffer and cannot decode
    anything. *)
Definition undecodable (A : Type) : proto.Message A :=
  {| proto.Marshal := fun _ => Ok [];
     proto.Unmarshal := fun _ => Err (errorString "proto: cannot parse invalid wire-format data") |}.

Definition codec : Codec :=
  {| Codec_ListFilesystemReq := undecodable _;
     Codec_ListFilesystemRes := undecodable _;
     Codec_ListFilesystemVersionsReq := undecodable _;
     Codec_ListFilesystemVersionsRes := undecodable _;
     Codec_SendReq := undecodable _;
     Codec_SendRes := undecodable _;
     Codec_ReceiveReq := undecodable _;
     Codec_ReceiveRes := undecodable _;
     Codec_DestroySnapshotsReq := undecodable _;
     Codec_DestroySnapshotsRes := undecodable _;
     Codec_SnapshotReplicationStatusReq := undecodable _;
     Codec_SnapshotReplicationStatusRes := undecodable _ |}.

(** A peer that answers every request with an empty buffer, and with a stream
    exactly when [withStream] is set. *)
Definition peer (withStream : bool) : streamrpc.Client unit :=
  {| streamrpc.run_RequestReply := fun _ _ _ c =>
       (Ok ([], if withStream then Some 9%nat else None), c) |}.

End memfs.

(** ** Notions used in the statements *)

(** The ancestors of a path strictly above it, root first: its non-empty
    proper prefixes.  [ancestorsFrom parent rest] lists those of
    [parent ++ rest] that extend [parent]. *)
Fixpoint ancestorsFrom (parent rest : list string) : list zfs.DatasetPath :=
  match rest with
  | [] => []
  | c :: rest' =>
    match rest' with
    | [] => []
    | _ :: _ => (parent ++ [c]) :: ancestorsFrom (parent ++ [c]) rest'
    end
  end.

Definition ancestors (lp : zfs.DatasetPath) : list zfs.DatasetPath :=
  ancestorsFrom [] lp.

(** The paths probed, and the paths a placeholder creation was attempted on,
    in the order of the calls. *)
Fixpoint probed (tr : list Event) : list zfs.DatasetPath :=
  match tr with
  | [] => []
  | EvZFSGet fs _ _ :: tr' => fs :: probed tr'
  | _ :: tr' => probed tr'
  end.

Fixpoint created (tr : list Event) : list zfs.DatasetPath :=
  match tr with
  | [] => []
  | EvZFSCreatePlaceholderFilesystem fs _ :: tr' => fs :: created tr'
  | _ :: tr' => created tr'
  end.

Definition is_recv (ev : Event) : bool :=
  match ev with EvZFSRecv _ _ _ _ => true | _ => false end.

Definition is_invert (ev : Event) : bool :=
  match ev with EvInvert => true | _ => false end.

(** The shape of the calls of the ancestor walk over the ancestors [l], with
    the error it ends in: an ancestor whose probe answers is passed by, one
    whose probe fails gets a placeholder, and a failed creation ends the
    walk. *)
Inductive walkTrace (name : string)
  : list zfs.DatasetPath -> list Event -> option error -> Prop :=
| walk_done :
    walkTrace name [] [] None
| walk_exists a l props tr res :
    walkTrace name l tr res ->
    walkTrace name (a :: l) (EvZFSGet a [name] (Ok props) :: tr) res
| walk_created a l err tr res :
    walkTrace name l tr res ->
    walkTrace name (a :: l)
      (EvZFSGet a [name] (Err err) :: EvZFSCreatePlaceholderFilesystem a None :: tr) res
| walk_failed a l err cerr :
    walkTrace name (a :: l)
      [EvZFSGet a [name] (Err err); EvZFSCreatePlaceholderFilesystem a (Some cerr)] (Some cerr).

(** The calls of the ancestor walk: probes and placeholder creations. *)
Definition is_repair_call (ev : Event) : bool :=
  match ev with
  | EvZFSGet _ _ _ | EvZFSCreatePlaceholderFilesystem _ _ => true
  | _ => false
  end.

(** Counting in a batch destruction: the destroy calls that failed, the
    results that carry an error text. *)
Definition destroyFailed (ev : Event) : bool :=
  match ev with
  | EvZFSDestroyFilesystemVersion _ _ (Some _) => true
  | _ => false
  end.

Definition destroysOn (lp : zfs.DatasetPath) (ev : Event) : Prop :=
  exists v res, ev = EvZFSDestroyFilesystemVersion lp v res.

Definition hasErrorText (r : pdu.DestroySnapshotRes.t) : bool :=
  negb (String.eqb (pdu.DestroySnapshotRes.Error r) "").

Definition count {A : Type} (f : A -> bool) (l : list A) : nat :=
  length (List.filter f l).

(** The call names the dispatcher knows. *)
Definition RPCNames : list string :=
  [RPCListFilesystems; RPCListFilesystemVersions; RPCReceive; RPCSend;
   RPCSDestroySnapshots; RPCSnapshotReplicationStatus].

(** A trace without a call of [Invert]. *)
Definition no_invert (tr : list Event) : Prop :=
  Forall (fun ev => is_invert ev = false) tr.

(** ** Scenarios on the engine in memory *)

Module scenario.

(** A receiver whose map puts every remote path below [pool]. *)
Definition receiver : Receiver.t memfs.prefixMap :=
  {| Receiver.fsmapInv := memfs.Strip ["pool"];
     Receiver.fsmap := memfs.Prepend ["pool"];
     Receiver.fsvf := memfs.acceptAll |}.

(** Only [pool] exists, with real data. *)
Definition poolOnly : memfs.World :=
  {| memfs.datasets := {[ ["pool"] := "" ]};
     memfs.snapshots := [];
     memfs.ioFaults := [];
     memfs.received := [] |}.

(** As [poolOnly], but the properties of [pool/a] cannot be read: the probe
    fails with an I/O error, not with "does not exist". *)
Definition faultyProbe : memfs.World :=
  {| memfs.datasets := {[ ["pool"] := "" ]};
     memfs.snapshots := [];
     memfs.ioFaults := [["pool"; "a"]];
     memfs.received := [] |}.

(** [pool] exists and [pool/a] is a placeholder. *)
Definition placeholderTarget : memfs.World :=
  {| memfs.datasets := <[ ["pool"; "a"] := "on" ]> {[ ["pool"] := "" ]};
     memfs.snapshots := [];
     memfs.ioFaults := [];
     memfs.received := [] |}.

(** [pool/a] holds the snapshots [s1] and [s3]. *)
Definition withSnapshots : memfs.World :=
  {| memfs.datasets := <[ ["pool"; "a"] := "" ]> {[ ["pool"] := "" ]};
     memfs.snapshots := [(["pool"; "a"], "s1"); (["pool"; "a"], "s3")];
     memfs.ioFaults := [];
     memfs.received := [] |}.

Definition snapshot (name creation : string) : pdu.FilesystemVersion.t :=
  {| pdu.FilesystemVersion.Type' := pdu.FilesystemVersion_Snapshot;
     pdu.FilesystemVersion.Name := name;
     pdu.FilesystemVersion.Guid := 0;
     pdu.FilesystemVersion.CreateTXG := 0;
     pdu.FilesystemVersion.Creation := creation |}.

Definition bookmark (name : string) : pdu.FilesystemVersion.t :=
  {| pdu.FilesystemVersion.Type' := pdu.FilesystemVersion_Bookmark;
     pdu.FilesystemVersion.Name := name;
     pdu.FilesystemVersion.Guid := 0;
     pdu.FilesystemVersion.CreateTXG := 0;
     pdu.FilesystemVersion.Creation := "" |}.

(** Receive into [pool/a/b/c], and into [pool/a]. *)
Definition reqABC : pdu.ReceiveReq.t := {| pdu.ReceiveReq.Filesystem := "a/b/c" |}.
Definition reqA : pdu.ReceiveReq.t := {| pdu.ReceiveReq.Filesystem := "a" |}.

(** A sender that exposes [pool/a] and what is below it, and nothing else. *)
Definition sender : Sender.t :=
  Sender.NewSender (memfs.filterPath (memfs.Strip ["pool"; "a"])) memfs.acceptAll.

(** Dispatchers bound to the receiving and to the sending endpoint. *)
Definition receiverHandler : Handler.t memfs.World :=
  Handler.NewHandler (ReceiverEndpoint memfs.lib memfs.backend receiver).
Definition senderHandler : Handler.t memfs.World :=
  Handler.NewHandler (SenderEndpoint memfs.lib memfs.backend sender).

End scenario.

(** ** Readings of the specification that the code does not follow *)

(** "Any other probe outcome halts the walk immediately and is returned as
    the Receive error": a probe of an ancestor that fails with anything but
    "does not exist" ends [Receive] with that error, and no placeholder is
    created there. *)
Definition probe_failure_halts : Prop :=
  forall (W T : Type) (FSMapT : FSMap.t T) (L : Lib) (B : Backend W)
         (e : Receiver.t T) (req : pdu.ReceiveReq.t) (s : Stream) (w : W)
         (p lp a : zfs.DatasetPath) (props : list string) (err : error),
    NewDatasetPath L (pdu.ReceiveReq.Filesystem req) = Ok p ->
    FSMap.Map (Receiver.fsmap e) p = Ok (Some lp) ->
    let r := Receiver.Receive L B e req (Some s) w in
    In a (ancestors lp) ->
    In (EvZFSGet a props (Err err)) (trace r) ->
    is_DatasetDoesNotExist err = false ->
    value r = Some err /\ ~ In a (created (trace r)).

(** "The walk does not descend into children of a path once that path is
    confirmed to already exist": below a path whose probe answered, the walk
    neither probes nor creates anything. *)
Definition walk_stops_below_existing : Prop :=
  forall (W : Type) (L : Lib) (B : Backend W) (lp : zfs.DatasetPath) (w : W)
         (a : zfs.DatasetPath) (props : list string) (p : zfs.ZFSProperties)
         (below : list string),
    let r := Receiver.createPlaceholders L B lp w in
    In (EvZFSGet a props (Ok p)) (trace r) ->
    below <> [] ->
    ~ In (a ++ below) (probed (trace r)) /\ ~ In (a ++ below) (created (trace r)).

(** "Otherwise ... the call returns overall success with exactly N per-item
    results": a batch of snapshots only is always answered with one result
    per item. *)
Definition snapshots_only_succeeds : Prop :=
  forall (W : Type) (L : Lib) (B : Backend W) (lp : zfs.DatasetPath)
         (snaps : list pdu.FilesystemVersion.t) (w : W),
    (forall fsv, In fsv snaps ->
       pdu.FilesystemVersion.Type' fsv = pdu.FilesystemVersion_Snapshot) ->
    exists res,
      value (doDestroySnapshots L B lp snaps w) = Ok res /\
      length (pdu.DestroySnapshotsRes.Results res) = length snaps.

(** ** Notions used in the further properties *)

(** The closing of a stream, and a request on the wire. *)
Definition is_close (ev : Event) : bool :=
  match ev with EvClose _ => true | _ => false end.

Definition is_request (ev : Event) : bool :=
  match ev with EvRequestReply _ _ _ => true | _ => false end.

(** The value and the world a run ends in, without its trace. *)
Definition answer {W A : Type} (r : A * W * list Event) : A * W := fst r.

(** A transport that hands every request to a dispatcher in the same world. *)
Definition loopback {W : Type} {codec : Codec} (a : Handler.t W) : streamrpc.Client W :=
  {| streamrpc.run_RequestReply := fun endpoint b stream w =>
       answer (Handler.Handle a endpoint b stream w) |}.

(** A message type whose every value is encoded and decoded back. *)
Definition Lawful {A : Type} (m : proto.Message A) : Prop :=
  forall x : A, exists b, proto.Marshal x = Ok b /\ proto.Unmarshal b = Ok x.

Definition LawfulCodec (c : Codec) : Prop :=
  Lawful Codec_ListFilesystemReq /\ Lawful Codec_ListFilesystemRes /\
  Lawful Codec_ListFilesystemVersionsReq /\ Lawful Codec_ListFilesystemVersionsRes /\
  Lawful Codec_SendReq /\ Lawful Codec_SendRes /\
  Lawful Codec_ReceiveReq /\ Lawful Codec_ReceiveRes /\
  Lawful Codec_DestroySnapshotsReq /\ Lawful Codec_DestroySnapshotsRes /\
  Lawful Codec_SnapshotReplicationStatusReq /\ Lawful Codec_SnapshotReplicationStatusRes.

(** How a destroy call and the result reported for it belong together. *)
Definition reports (L : Lib) (lp : zfs.DatasetPath) (ev : Event) (out : pdu.DestroySnapshotRes.t)
  : Prop :=
  exists v err,
    ev = EvZFSDestroyFilesystemVersion lp v err /\
    pdu.DestroySnapshotRes.Snapshot out = FilesystemVersionFromZFS L v /\
    pdu.DestroySnapshotRes.Error out = match err with Some e => Error L e | None => "" end.

(** A destroy call made for a requested item. *)
Definition destroys (L : Lib) (lp : zfs.DatasetPath) (ev : Event) (snap : pdu.FilesystemVersion.t)
  : Prop :=
  exists v err,
    ev = EvZFSDestroyFilesystemVersion lp v err /\ ZFSFilesystemVersion L snap = Ok v.

(** ** A codec that round-trips

    Every message type of the protocol is countable; a message is encoded as
    the binary digits of its number. *)

Module wire.

(** A positive number as a buffer, one byte per binary digit, and back. *)
Fixpoint posToBytes (p : positive) : bytes :=
  match p with
  | xH => []
  | xO q => Byte.x00 :: posToBytes q
  | xI q => Byte.x01 :: posToBytes q
  end.

Fixpoint bytesToPos (b : bytes) : positive :=
  match b with
  | [] => xH
  | x :: b' => if Byte.eqb x Byte.x00 then xO (bytesToPos b') else xI (bytesToPos b')
  end.

(** The encoding of a countable type as a message encoding. *)
Definition countableMessage (A : Type) `{Countable A} : proto.Message A :=
  {| proto.Marshal := fun x => Ok (posToBytes (encode x));
     proto.Unmarshal := fun b =>
       match decode (bytesToPos b) with
       | Some x => Ok x
       | None => Err (errorString "proto: cannot parse invalid wire-format data")
       end |}.

#[global] Instance Filesystem_eq_dec : EqDecision pdu.Filesystem.t.
Proof. solve_decision. Defined.
#[global] Instance Filesystem_countable : Countable pdu.Filesystem.t :=
  inj_countable'
    (fun x => (pdu.Filesystem.Path x, pdu.Filesystem.ResumeToken x))
    (fun t => {| pdu.Filesystem.Path := fst t; pdu.Filesystem.ResumeToken := snd t |})
    (fun x => match x with pdu.Filesystem.Build_t _ _ => eq_refl end).

#[global] Instance VersionType_eq_dec : EqDecision pdu.FilesystemVersion_VersionType.
Proof. solve_decision. Defined.
#[global] Instance VersionType_countable : Countable pdu.FilesystemVersion_VersionType :=
  inj_countable'
    (fun x => match x with
              | pdu.FilesystemVersion_Snapshot => true
              | pdu.FilesystemVersion_Bookmark => false
              end)
    (fun b : bool => if b then pdu.FilesystemVersion_Snapshot else pdu.FilesystemVersion_Bookmark)
    (fun x => match x with
              | pdu.FilesystemVersion_Snapshot => eq_refl
              | pdu.FilesystemVersion_Bookmark => eq_refl
              end).

#[global] Instance FilesystemVersion_eq_dec : EqDecision pdu.FilesystemVersion.t.
Proof. solve_decision. Defined.
#[global] Instance FilesystemVersion_countable : Countable pdu.FilesystemVersion.t :=
  inj_countable'
    (fun x => (pdu.FilesystemVersion.Type' x, pdu.FilesystemVersion.Name x,
               pdu.FilesystemVersion.Guid x, pdu.FilesystemVersion.CreateTXG x,
               pdu.FilesystemVersion.Creation x))
    (fun t => match t with
              | (ty, name, guid, txg, creation) =>
                {| pdu.FilesystemVersion.Type' := ty; pdu.FilesystemVersion.Name := name;
                   pdu.FilesystemVersion.Guid := guid; pdu.FilesystemVersion.CreateTXG := txg;
                   pdu.FilesystemVersion.Creation := creation |}
              end)
    (fun x => match x with pdu.FilesystemVersion.Build_t _ _ _ _ _ => eq_refl end).

#[global] Instance ListFilesystemReq_eq_dec : EqDecision pdu.ListFilesystemReq.t.
Proof. solve_decision. Defined.
#[global] Instance ListFilesystemReq_countable : Countable pdu.ListFilesystemReq.t :=
  inj_countable' (fun _ => tt) (fun _ => pdu.ListFilesystemReq.Build_t)
    (fun x => match x with pdu.ListFilesystemReq.Build_t => eq_refl end).

#[global] Instance ListFilesystemRes_eq_dec : EqDecision pdu.ListFilesystemRes.t.
Proof. solve_decision. Defined.
#[global] Instance ListFilesystemRes_countable : Countable pdu.ListFilesystemRes.t :=
  inj_countable' pdu.ListFilesystemRes.Filesystems pdu.ListFilesystemRes.Build_t
    (fun x => match x with pdu.ListFilesystemRes.Build_t _ => eq_refl end).

#[global] Instance ListFilesystemVersionsReq_eq_dec : EqDecision pdu.ListFilesystemVersionsReq.t.
Proof. solve_decision. Defined.
#[global] Instance ListFilesystemVersionsReq_countable
  : Countable pdu.ListFilesystemVersionsReq.t :=
  inj_countable' pdu.ListFilesystemVersionsReq.Filesystem pdu.ListFilesystemVersionsReq.Build_t
    (fun x => match x with pdu.ListFilesystemVersionsReq.Build_t _ => eq_refl end).

#[global] Instance ListFilesystemVersionsRes_eq_dec : EqDecision pdu.ListFilesystemVersionsRes.t.
Proof. solve_decision. Defined.
#[global] Instance ListFilesystemVersionsRes_countable
  : Countable pdu.ListFilesystemVersionsRes.t :=
  inj_countable' pdu.ListFilesystemVersionsRes.Versions pdu.ListFilesystemVersionsRes.Build_t
    (fun x => match x with pdu.ListFilesystemVersionsRes.Build_t _ => eq_refl end).

#[global] Instance SendReq_eq_dec : EqDecision pdu.SendReq.t.
Proof. solve_decision. Defined.
#[global] Instance SendReq_countable : Countable pdu.SendReq.t :=
  inj_countable'
    (fun x => (pdu.SendReq.Filesystem x, pdu.SendReq.From x, pdu.SendReq.To x))
    (fun t => match t with
              | (fs, from_, to_) =>
                {| pdu.SendReq.Filesystem := fs; pdu.SendReq.From := from_;
                   pdu.SendReq.To := to_ |}
              end)
    (fun x => match x with pdu.SendReq.Build_t _ _ _ => eq_refl end).

#[global] Instance SendRes_eq_dec : EqDecision pdu.SendRes.t.
Proof. solve_decision. Defined.
#[global] Instance SendRes_countable : Countable pdu.SendRes.t :=
  inj_countable' pdu.SendRes.ExpectedSize pdu.SendRes.Build_t
    (fun x => match x with pdu.SendRes.Build_t _ => eq_refl end).

#[global] Instance ReceiveReq_eq_dec : EqDecision pdu.ReceiveReq.t.
Proof. solve_decision. Defined.
#[global] Instance ReceiveReq_countable : Countable pdu.ReceiveReq.t :=
  inj_countable' pdu.ReceiveReq.Filesystem pdu.ReceiveReq.Build_t
    (fun x => match x with pdu.ReceiveReq.Build_t _ => eq_refl end).

#[global] Instance ReceiveRes_eq_dec : EqDecision pdu.ReceiveRes.t.
Proof. solve_decision. Defined.
#[global] Instance ReceiveRes_countable : Countable pdu.ReceiveRes.t :=
  inj_countable' (fun _ => tt) (fun _ => pdu.ReceiveRes.Build_t)
    (fun x => match x with pdu.ReceiveRes.Build_t => eq_refl end).

#[global] Instance DestroySnapshotsReq_eq_dec : EqDecision pdu.DestroySnapshotsReq.t.
Proof. solve_decision. Defined.
#[global] Instance DestroySnapshotsReq_countable : Countable pdu.DestroySnapshotsReq.t :=
  inj_countable'
    (fun x => (pdu.DestroySnapshotsReq.Filesystem x, pdu.DestroySnapshotsReq.Snapshots x))
    (fun t => {| pdu.DestroySnapshotsReq.Filesystem := fst t;
                 pdu.DestroySnapshotsReq.Snapshots := snd t |})
    (fun x => match x with pdu.DestroySnapshotsReq.Build_t _ _ => eq_refl end).

#[global] Instance DestroySnapshotRes_eq_dec : EqDecision pdu.DestroySnapshotRes.t.
Proof. solve_decision. Defined.
#[global] Instance DestroySnapshotRes_countable : Countable pdu.DestroySnapshotRes.t :=
  inj_countable'
    (fun x => (pdu.DestroySnapshotRes.Snapshot x, pdu.DestroySnapshotRes.Error x))
    (fun t => {| pdu.DestroySnapshotRes.Snapshot := fst t;
                 pdu.DestroySnapshotRes.Error := snd t |})
    (fun x => match x with pdu.DestroySnapshotRes.Build_t _ _ => eq_refl end).

#[global] Instance DestroySnapshotsRes_eq_dec : EqDecision pdu.DestroySnapshotsRes.t.
Proof. solve_decision. Defined.
#[global] Instance DestroySnapshotsRes_countable : Countable pdu.DestroySnapshotsRes.t :=
  inj_countable' pdu.DestroySnapshotsRes.Results pdu.DestroySnapshotsRes.Build_t
    (fun x => match x with pdu.DestroySnapshotsRes.Build_t _ => eq_refl end).

#[global] Instance Op_eq_dec : EqDecision pdu.SnapshotReplicationStatusReq_Op.
Proof. solve_decision. Defined.
#[global] Instance Op_countable : Countable pdu.SnapshotReplicationStatusReq_Op :=
  inj_countable'
    (fun x => match x with
              | pdu.SnapshotReplicationStatusReq_Get => None
              | pdu.SnapshotReplicationStatusReq_SetReplicated => Some None
              | pdu.SnapshotReplicationStatusReq_Unknown code => Some (Some code)
              end)
    (fun o : option (option Z) =>
       match o with
       | None => pdu.SnapshotReplicationStatusReq_Get
       | Some None => pdu.SnapshotReplicationStatusReq_SetReplicated
       | Some (Some code) => pdu.SnapshotReplicationStatusReq_Unknown code
       end)
    (fun x => match x with
              | pdu.SnapshotReplicationStatusReq_Get => eq_refl
              | pdu.SnapshotReplicationStatusReq_SetReplicated => eq_refl
              | pdu.SnapshotReplicationStatusReq_Unknown _ => eq_refl
              end).

#[global] Instance SnapshotReplicationStatusReq_eq_dec
  : EqDecision pdu.SnapshotReplicationStatusReq.t.
Proof. solve_decision. Defined.
#[global] Instance SnapshotReplicationStatusReq_countable
  : Countable pdu.SnapshotReplicationStatusReq.t :=
  inj_countable'
    (fun x => (pdu.SnapshotReplicationStatusReq.Filesystem x,
               pdu.SnapshotReplicationStatusReq.Snapshot x,
               pdu.SnapshotReplicationStatusReq.Op x))
    (fun t => match t with
              | (fs, snap, op) =>
                {| pdu.SnapshotReplicationStatusReq.Filesystem := fs;
                   pdu.SnapshotReplicationStatusReq.Snapshot := snap;
                   pdu.SnapshotReplicationStatusReq.Op := op |}
              end)
    (fun x => match x with pdu.SnapshotReplicationStatusReq.Build_t _ _ _ => eq_refl end).

#[global] Instance SnapshotReplicationStatusRes_eq_dec
  : EqDecision pdu.SnapshotReplicationStatusRes.t.
Proof. solve_decision. Defined.
#[global] Instance SnapshotReplicationStatusRes_countable
  : Countable pdu.SnapshotReplicationStatusRes.t :=
  inj_countable' pdu.SnapshotReplicationStatusRes.Replicated
    pdu.SnapshotReplicationStatusRes.Build_t
    (fun x => match x with pdu.SnapshotReplicationStatusRes.Build_t _ => eq_refl end).

Definition codec : Codec :=
  {| Codec_ListFilesystemReq := countableMessage _;
     Codec_ListFilesystemRes := countableMessage _;
     Codec_ListFilesystemVersionsReq := countableMessage _;
     Codec_ListFilesystemVersionsRes := countableMessage _;
     Codec_SendReq := countableMessage _;
     Codec_SendRes := countableMessage _;
     Codec_ReceiveReq := countableMessage _;
     Codec_ReceiveRes := countableMessage _;
     Codec_DestroySnapshotsReq := countableMessage _;
     Codec_DestroySnapshotsRes := countableMessage _;
     Codec_SnapshotReplicationStatusReq := countableMessage _;
     Codec_SnapshotReplicationStatusRes := countableMessage _ |}.

End wire.

(** ** Further scenarios *)

Module cases.

(** A receiver that accepts only remote paths below [tank] and strips that
    root. *)
Definition strictReceiver : Receiver.t memfs.prefixMap :=
  {| Receiver.fsmapInv := memfs.Prepend ["tank"];
     Receiver.fsmap := memfs.Strip ["tank"];
     Receiver.fsvf := memfs.acceptAll |}.

(** A dispatcher bound to the sending endpoint, and a stub that reaches it. *)
Definition senderLoop : streamrpc.Client memfs.World :=
  loopback (codec := wire.codec) scenario.senderHandler.

Definition sendReq : pdu.SendReq.t :=
  {| pdu.SendReq.Filesystem := "pool/a"; pdu.SendReq.From := "s1"; pdu.SendReq.To := "s3" |}.

End cases.

(** * Properties *)

(** ** The monad *)

Lemma bind_run {W A B : Type} (m : M W A) (f : A -> M W B) (w : W) :
  bind m f w =
  (value (f (value (m w)) (world (m w))),
   world (f (value (m w)) (world (m w))),
   trace (m w) ++ trace (f (value (m w)) (world (m w)))).
Proof.
  unfold bind, value, world, trace.
  destruct (m w) as [[a w1] t1]; simpl.
  destruct (f a w1) as [[b w2] t2]; reflexivity.
Qed.

Lemma bind_ret_r {W A : Type} (m : M W A) (w : W) :
  bind m (fun a => ret a) w = m w.
Proof.
  unfold bind, ret. destruct (m w) as [[a w1] t1].
  rewrite app_nil_r. reflexivity.
Qed.

Lemma call_run {W A : Type} (ev : A -> Event) (op : W -> A * W) (w : W) :
  call ev op w = (fst (op w), snd (op w), [ev (fst (op w))]).
Proof. unfold call. destruct (op w); reflexivity. Qed.

Lemma run_eta {W A : Type} (r : A * W * list Event) :
  r = (value r, world r, trace r).
Proof. destruct r as [[a w] t]; reflexivity. Qed.

(** ** Dataset paths *)

Lemma Equal_eq (p q : zfs.DatasetPath) : zfs.Equal p q = true <-> p = q.
Proof.
  revert q. induction p as [|c p IH]; intros [|d q]; simpl; split; try congruence.
  - intros H. apply andb_true_iff in H as [Hc Hp].
    apply String.eqb_eq in Hc. apply IH in Hp. congruence.
  - intros H. injection H as -> ->. apply andb_true_iff. split.
    + apply String.eqb_refl.
    + apply IH. reflexivity.
Qed.

Lemma Equal_proper_prefix (parent : list string) (c d : string) (rest : list string) :
  zfs.Equal (parent ++ [c]) (parent ++ c :: d :: rest) = false.
Proof.
  destruct (zfs.Equal _ _) eqn:E; [|reflexivity].
  apply Equal_eq in E. apply app_inv_head in E. discriminate.
Qed.

Lemma Equal_refl (p : zfs.DatasetPath) : zfs.Equal p p = true.
Proof. apply Equal_eq. reflexivity. Qed.

(** ** The ancestor walk of Receive *)

Section WalkFacts.
Context {W : Type} (L : Lib) (B : Backend W).

Lemma visitor_target (lp : zfs.DatasetPath) (visitErr : option error) (filledIn : bool) (w : W) :
  Receiver.visitor L B lp visitErr {| zfs.Path := lp; zfs.FilledIn := filledIn |} w
  = ((false, visitErr), w, []).
Proof. unfold Receiver.visitor. cbn [zfs.Path]. rewrite Equal_refl. reflexivity. Qed.

Lemma visitor_ancestor (lp : zfs.DatasetPath) (visitErr : option error)
  (v : zfs.DatasetPathVisit) (w : W) :
  zfs.Equal (zfs.Path v) lp = false ->
  let name := ZREPL_PLACEHOLDER_PROPERTY_NAME L in
  let g := run_ZFSGet B (zfs.Path v) [name] w in
  let c := run_ZFSCreatePlaceholderFilesystem B (zfs.Path v) (snd g) in
  Receiver.visitor L B lp visitErr v w =
  match fst g with
  | Ok props => ((true, visitErr), snd g, [EvZFSGet (zfs.Path v) [name] (Ok props)])
  | Err err =>
    match fst c with
    | None =>
      ((true, visitErr), snd c,
       [EvZFSGet (zfs.Path v) [name] (Err err); EvZFSCreatePlaceholderFilesystem (zfs.Path v) None])
    | Some cerr =>
      ((false, Some cerr), snd c,
       [EvZFSGet (zfs.Path v) [name] (Err err);
        EvZFSCreatePlaceholderFilesystem (zfs.Path v) (Some cerr)])
    end
  end.
Proof.
  intros Hne name g c. subst name g c. unfold Receiver.visitor. rewrite Hne.
  unfold ZFSGet, ZFSCreatePlaceholderFilesystem, bind, call, ret.
  destruct (run_ZFSGet B _ _ w) as [[props|err] w1]; cbn [fst snd]; [reflexivity|].
  destruct (run_ZFSCreatePlaceholderFilesystem B _ w1) as [[cerr|] w2]; reflexivity.
Qed.

Lemma tree_walk_trace (rest : list string) :
  forall (c : string) (parent : list string) (w : W),
  let lp := parent ++ c :: rest in
  let r := tree_WalkTopDown (Receiver.visitor L B lp) (zfs.newDatasetPathTree c rest) parent None w in
  walkTrace (ZREPL_PLACEHOLDER_PROPERTY_NAME L) (ancestorsFrom parent (c :: rest)) (trace r) (value r).
Proof.
  induction rest as [|d rest IH]; intros c parent w lp r; subst lp r.
  - cbn [zfs.newDatasetPathTree tree_WalkTopDown ancestorsFrom].
    rewrite bind_run, visitor_target. cbn. constructor.
  - cbn [zfs.newDatasetPathTree tree_WalkTopDown ancestorsFrom].
    rewrite bind_run, visitor_ancestor by apply Equal_proper_prefix.
    cbn [zfs.Path].
    specialize (IH d (parent ++ [c])). cbn zeta in IH.
    rewrite <- app_assoc in IH. cbn [app] in IH.
    destruct (run_ZFSGet B (parent ++ [c]) _ w) as [[props|err] w1]; cbn [fst snd].
    + cbn [value world trace fst snd]. rewrite bind_ret_r.
      cbn [app]. apply walk_exists, IH.
    + destruct (run_ZFSCreatePlaceholderFilesystem B (parent ++ [c]) w1) as [[cerr|] w2];
        cbn [value world trace fst snd].
      * cbn. apply walk_failed.
      * rewrite bind_ret_r. cbn [app]. apply walk_created, IH.
Qed.

Lemma createPlaceholders_trace (lp : zfs.DatasetPath) (w : W) :
  let r := Receiver.createPlaceholders L B lp w in
  walkTrace (ZREPL_PLACEHOLDER_PROPERTY_NAME L) (ancestors lp) (trace r) (value r).
Proof.
  unfold Receiver.createPlaceholders, ancestors. destruct lp as [|c rest].
  - cbn. constructor.
  - cbn [zfs.Add zfs.NewDatasetPathForest zfs.roots_Add app WalkTopDown].
    rewrite bind_ret_r. apply (tree_walk_trace rest c [] w).
Qed.
End WalkFacts.

(** ** Ancestors *)

Lemma ancestorsFrom_spec (rest parent : list string) (a : zfs.DatasetPath) :
  In a (ancestorsFrom parent rest) <->
  exists x y, x <> [] /\ y <> [] /\ rest = x ++ y /\ a = parent ++ x.
Proof.
  revert parent. induction rest as [|c rest IH]; intros parent.
  - simpl. split; [tauto|]. intros (x & y & Hx & Hy & E & _).
    destruct x; [congruence|discriminate].
  - cbn [ancestorsFrom]. destruct rest as [|d rest].
    + split; [simpl; tauto|]. intros (x & y & Hx & Hy & E & _).
      destruct x as [|x0 x]; [congruence|]. injection E as _ E.
      destruct x; destruct y; try discriminate; congruence.
    + cbn [In]. rewrite IH. split.
      * intros [<- | (x & y & Hx & Hy & E & ->)].
        -- exists [c], (d :: rest). repeat split; congruence.
        -- exists (c :: x), y. repeat split; try congruence.
           ++ cbn. congruence.
           ++ rewrite <- app_assoc. reflexivity.
      * intros (x & y & Hx & Hy & E & ->).
        destruct x as [|x0 x]; [congruence|]. injection E as <- E.
        destruct x as [|x1 x].
        -- left. reflexivity.
        -- right. exists (x1 :: x), y. repeat split; try congruence.
           rewrite <- app_assoc. reflexivity.
Qed.

Lemma ancestors_spec (lp a : zfs.DatasetPath) :
  In a (ancestors lp) <->
  a <> [] /\ exists below, below <> [] /\ lp = a ++ below.
Proof.
  unfold ancestors. rewrite ancestorsFrom_spec. split.
  - intros (x & y & Hx & Hy & E & ->). cbn. split; [exact Hx|]. exists y. split; assumption.
  - intros (Ha & y & Hy & E). exists a, y. repeat split; assumption.
Qed.

Lemma ancestors_not_target (lp a : zfs.DatasetPath) :
  In a (ancestors lp) -> a <> lp.
Proof.
  intros H ->. apply ancestors_spec in H as (_ & y & Hy & E).
  apply Hy. rewrite <- (app_nil_r lp) in E at 1. apply app_inv_head in E. congruence.
Qed.

Lemma ancestorsFrom_longer (rest parent : list string) (a : zfs.DatasetPath) :
  In a (ancestorsFrom parent rest) -> (length parent < length a)%nat.
Proof.
  intros H. apply ancestorsFrom_spec in H as (x & y & Hx & _ & _ & ->).
  rewrite length_app. destruct x; [congruence|]. cbn. lia.
Qed.

Lemma ancestorsFrom_NoDup (rest parent : list string) :
  NoDup (ancestorsFrom parent rest).
Proof.
  revert parent. induction rest as [|c rest IH]; intros parent; cbn [ancestorsFrom].
  - constructor.
  - destruct rest as [|d rest]; constructor.
    + intros H. apply ancestorsFrom_longer in H. lia.
    + apply IH.
Qed.

Lemma ancestors_NoDup (lp : zfs.DatasetPath) : NoDup (ancestors lp).
Proof. apply ancestorsFrom_NoDup. Qed.

Example ancestors_of_target :
  ancestors ["pool"; "a"; "b"; "c"] = [["pool"]; ["pool"; "a"]; ["pool"; "a"; "b"]].
Proof. reflexivity. Qed.

Example forest_of_target :
  zfs.Add zfs.NewDatasetPathForest ["pool"; "a"; "b"]
  = [zfs.Tree "pool" true [zfs.Tree "a" true [zfs.Tree "b" false []]]].
Proof. reflexivity. Qed.

(** ** Consequences of the shape of the walk *)

Section WalkTrace.
Variable name : string.

Lemma walkTrace_calls l tr res :
  walkTrace name l tr res ->
  Forall (fun ev => is_repair_call ev = true) tr /\
  incl (probed tr) l /\ incl (created tr) l.
Proof.
  induction 1 as [|a l props tr res _ (IHf & IHp & IHc)
                  |a l err tr res _ (IHf & IHp & IHc)|a l err cerr]; cbn [probed created].
  - repeat split; [constructor| |]; intros x [].
  - repeat split.
    + constructor; [reflexivity|exact IHf].
    + intros x [<-|Hx]; [left; reflexivity|right; auto].
    + intros x Hx. right. auto.
  - repeat split.
    + repeat constructor. exact IHf.
    + intros x [<-|Hx]; [left; reflexivity|right; auto].
    + intros x [<-|Hx]; [left; reflexivity|right; auto].
  - repeat split.
    + repeat constructor.
    + intros x [<-|[]]. left. reflexivity.
    + intros x [<-|[]]. left. reflexivity.
Qed.

Lemma In_created a c tr :
  In (EvZFSCreatePlaceholderFilesystem a c) tr -> In a (created tr).
Proof.
  induction tr as [|ev tr IH]; [intros []|].
  intros [->|H]; [left; reflexivity|].
  destruct ev; cbn [created]; auto. right. auto.
Qed.

Lemma In_probed a props g tr :
  In (EvZFSGet a props g) tr -> In a (probed tr).
Proof.
  induction tr as [|ev tr IH]; [intros []|].
  intros [->|H]; [left; reflexivity|].
  destruct ev; cbn [probed]; auto. right. auto.
Qed.

Lemma created_In a tr :
  In a (created tr) -> exists c, In (EvZFSCreatePlaceholderFilesystem a c) tr.
Proof.
  induction tr as [|ev tr IH]; [intros []|].
  destruct ev; cbn [created]; intros H;
    try (destruct (IH H) as [c Hc]; exists c; right; exact Hc).
  destruct H as [<-|H].
  - eexists. left. reflexivity.
  - destruct (IH H) as [c Hc]. exists c. right. exact Hc.
Qed.

Lemma walkTrace_probe_name l tr res a props g :
  walkTrace name l tr res -> In (EvZFSGet a props g) tr -> props = [name].
Proof.
  induction 1 as [|a0 l props0 tr res _ IH|a0 l err0 tr res _ IH|a0 l err0 cerr];
    cbn [In]; intros H.
  - destruct H.
  - destruct H as [H|H]; [congruence|auto].
  - destruct H as [H|[H|H]]; [congruence|discriminate|auto].
  - destruct H as [H|[H|[]]]; [congruence|discriminate].
Qed.

Lemma walkTrace_failed_probe l tr res a props err :
  walkTrace name l tr res ->
  In (EvZFSGet a props (Err err)) tr -> In a (created tr).
Proof.
  induction 1 as [|a0 l props0 tr res _ IH|a0 l err0 tr res _ IH|a0 l err0 cerr];
    cbn [In created]; intros H.
  - destruct H.
  - destruct H as [H|H]; [discriminate|auto].
  - destruct H as [H|[H|H]]; [injection H as -> _ _; left; reflexivity|discriminate|].
    right. auto.
  - destruct H as [H|[H|[]]]; [injection H as -> _ _; left; reflexivity|discriminate].
Qed.

Lemma walkTrace_existing_untouched l tr res a props p :
  NoDup l -> walkTrace name l tr res ->
  In (EvZFSGet a props (Ok p)) tr -> ~ In a (created tr).
Proof.
  intros Hnd Hw. revert Hnd.
  induction Hw as [|a0 l props0 tr res Hw IH|a0 l err0 tr res Hw IH|a0 l err0 cerr];
    intros Hnd; cbn [In created]; intros H.
  - destruct H.
  - apply NoDup_cons_iff in Hnd as [Hnotin Hnd].
    destruct H as [H|H].
    + injection H as -> _ _. intros Hc.
      apply Hnotin. destruct (walkTrace_calls _ _ _ Hw) as (_ & _ & Hincl).
      apply Hincl, Hc.
    + apply IH; assumption.
  - apply NoDup_cons_iff in Hnd as [Hnotin Hnd].
    destruct H as [H|[H|H]]; [discriminate|discriminate|].
    intros [<-|Hc].
    + apply Hnotin. destruct (walkTrace_calls _ _ _ Hw) as (_ & Hincl & _).
      apply Hincl. eapply In_probed. exact H.
    + revert Hc. apply IH; assumption.
  - destruct H as [H|[H|[]]]; discriminate.
Qed.

Lemma walkTrace_complete l tr :
  walkTrace name l tr None ->
  probed tr = l /\ forall a c, In (EvZFSCreatePlaceholderFilesystem a c) tr -> c = None.
Proof.
  remember None as res eqn:E. induction 1 as [|a l props tr res _ IH|a l err tr res _ IH|a l err cerr];
    cbn [probed In].
  - split; [reflexivity|intros a c []].
  - destruct (IH E) as [IHp IHc]. split; [congruence|].
    intros a0 c [H|H]; [discriminate|eauto].
  - destruct (IH E) as [IHp IHc]. split; [congruence|].
    intros a0 c [H|[H|H]]; [discriminate|congruence|eauto].
  - discriminate.
Qed.

Lemma walkTrace_creation_failed l tr res a cerr :
  walkTrace name l tr res ->
  In (EvZFSCreatePlaceholderFilesystem a (Some cerr)) tr -> res = Some cerr.
Proof.
  induction 1 as [|a0 l props tr res _ IH|a0 l err tr res _ IH|a0 l err cerr0]; cbn [In]; intros H.
  - destruct H.
  - destruct H as [H|H]; [discriminate|auto].
  - destruct H as [H|[H|H]]; [discriminate|discriminate|auto].
  - destruct H as [H|[H|[]]]; [discriminate|congruence].
Qed.

Lemma walkTrace_halted l tr cerr :
  walkTrace name l tr (Some cerr) ->
  exists pre a err,
    In a l /\
    tr = pre ++ [EvZFSGet a [name] (Err err); EvZFSCreatePlaceholderFilesystem a (Some cerr)].
Proof.
  remember (Some cerr) as res eqn:E.
  induction 1 as [|a l props tr res _ IH|a l err tr res _ IH|a l err cerr0].
  - discriminate.
  - destruct (IH E) as (pre & a0 & err0 & Hin & ->).
    exists (EvZFSGet a [name] (Ok props) :: pre), a0, err0. split; [right; exact Hin|reflexivity].
  - destruct (IH E) as (pre & a0 & err0 & Hin & ->).
    exists (EvZFSGet a [name] (Err err) :: EvZFSCreatePlaceholderFilesystem a None :: pre), a0, err0.
    split; [right; exact Hin|reflexivity].
  - injection E as ->. exists [], a, err. split; [left; reflexivity|reflexivity].
Qed.

End WalkTrace.

(** ** Receive *)

Lemma created_app (t1 t2 : list Event) : created (t1 ++ t2) = created t1 ++ created t2.
Proof.
  induction t1 as [|ev t1 IH]; [reflexivity|].
  destruct ev; cbn [app created]; rewrite ?IH; reflexivity.
Qed.

Lemma probed_app (t1 t2 : list Event) : probed (t1 ++ t2) = probed t1 ++ probed t2.
Proof.
  induction t1 as [|ev t1 IH]; [reflexivity|].
  destruct ev; cbn [app probed]; rewrite ?IH; reflexivity.
Qed.

Lemma repair_call_not_recv (tr : list Event) :
  Forall (fun ev => is_repair_call ev = true) tr ->
  Forall (fun ev => is_recv ev = false) tr.
Proof.
  apply Forall_impl. intros ev H. destruct ev; try discriminate; reflexivity.
Qed.

Section ReceiveFacts.
Context {W T : Type} {FSMapT : FSMap.t T} (L : Lib) (B : Backend W).

Lemma Receive_run (e : Receiver.t T) (req : pdu.ReceiveReq.t) (s : Stream) (w : W)
  (p lp : zfs.DatasetPath) :
  NewDatasetPath L (pdu.ReceiveReq.Filesystem req) = Ok p ->
  FSMap.Map (Receiver.fsmap e) p = Ok (Some lp) ->
  let name := ZREPL_PLACEHOLDER_PROPERTY_NAME L in
  let walk := Receiver.createPlaceholders L B lp w in
  let g := run_ZFSGet B lp [name] (world walk) in
  let args := Receiver.recvArgs (Receiver.needForceRecv L lp (fst g)) in
  let rv := run_ZFSRecv B (ToString L lp) (Some s) args (snd g) in
  Receiver.Receive L B e req (Some s) w =
  match value walk with
  | Some err => (Some err, world walk, trace walk ++ [EvClose s])
  | None =>
    (fst rv, snd rv,
     trace walk ++ [EvZFSGet lp [name] (fst g);
                    EvZFSRecv (ToString L lp) (Some s) args (fst rv);
                    EvClose s])
  end.
Proof.
  intros Hp Hm name walk g args rv. subst name walk g args rv.
  unfold Receiver.Receive, defer. rewrite Hp, Hm.
  unfold bind, ZFSGet, ZFSRecv, call, ret, Close, value, world, trace.
  destruct (Receiver.createPlaceholders L B lp w) as [[[err|] w1] tr1]; cbn [fst snd].
  - rewrite app_nil_r. reflexivity.
  - destruct (run_ZFSGet B lp _ w1) as [g w2]; cbn [fst snd].
    destruct (run_ZFSRecv B _ _ _ w2) as [res w3]; cbn [fst snd].
    rewrite <- app_assoc. reflexivity.
Qed.

(** What [Receive] does once the path is mapped, in two cases. *)
Lemma Receive_cases (e : Receiver.t T) (req : pdu.ReceiveReq.t) (s : Stream) (w : W)
  (p lp : zfs.DatasetPath) :
  NewDatasetPath L (pdu.ReceiveReq.Filesystem req) = Ok p ->
  FSMap.Map (Receiver.fsmap e) p = Ok (Some lp) ->
  let name := ZREPL_PLACEHOLDER_PROPERTY_NAME L in
  let r := Receiver.Receive L B e req (Some s) w in
  exists tr,
    Forall (fun ev => is_repair_call ev = true) tr /\
    incl (probed tr) (ancestors lp) /\ incl (created tr) (ancestors lp) /\
    ((exists cerr, walkTrace name (ancestors lp) tr (Some cerr) /\
                   value r = Some cerr /\ trace r = tr ++ [EvClose s]) \/
     (exists g, walkTrace name (ancestors lp) tr None /\
                trace r = tr ++ [EvZFSGet lp [name] g;
                                 EvZFSRecv (ToString L lp) (Some s)
                                   (Receiver.recvArgs (Receiver.needForceRecv L lp g)) (value r);
                                 EvClose s])).
Proof.
  intros Hp Hm name r. subst r.
  rewrite (Receive_run e req s w p lp Hp Hm).
  pose proof (createPlaceholders_trace L B lp w) as Hw. cbn zeta in Hw.
  fold name in Hw.
  destruct (walkTrace_calls _ _ _ _ Hw) as (Hf & Hp' & Hc).
  exists (trace (Receiver.createPlaceholders L B lp w)).
  repeat split; try assumption.
  destruct (value (Receiver.createPlaceholders L B lp w)) as [cerr|].
  - left. exists cerr. repeat split. exact Hw.
  - right. eexists. split; [exact Hw|]. reflexivity.
Qed.

End ReceiveFacts.

(** ** Receive: the claims *)

Section ReceiveClaims.
Context {W T : Type} {FSMapT : FSMap.t T} (L : Lib) (B : Backend W).

Lemma recvArgs_force (force : bool) :
  (Receiver.recvArgs force = ["-F"] <-> force = true) /\
  (Receiver.recvArgs force = ["-F"] \/ Receiver.recvArgs force = []).
Proof. destruct force; cbn; split; try tauto; split; congruence. Qed.

(** C1, as the code has it.  In the ancestor walk of [Receive], a failed
    probe of an ancestor strictly above the target, whatever the kind of the
    failure, is taken as the cue to create a placeholder there.  The walk
    halts only when such a creation fails: [Receive] then returns the error
    of the creation and the backend receive is not invoked.  When no creation
    fails the walk does not halt, and [Receive] goes on to the backend receive
    and returns its answer. *)
Theorem Receive_probe_failure_creates_placeholder
  (e : Receiver.t T) (req : pdu.ReceiveReq.t) (s : Stream) (w : W) (p lp : zfs.DatasetPath) :
  NewDatasetPath L (pdu.ReceiveReq.Filesystem req) = Ok p ->
  FSMap.Map (Receiver.fsmap e) p = Ok (Some lp) ->
  let r := Receiver.Receive L B e req (Some s) w in
  (forall a props err,
     In a (ancestors lp) ->
     In (EvZFSGet a props (Err err)) (trace r) ->
     In a (created (trace r))) /\
  (forall a cerr,
     In (EvZFSCreatePlaceholderFilesystem a (Some cerr)) (trace r) ->
     value r = Some cerr /\ Forall (fun ev => is_recv ev = false) (trace r)) /\
  ((forall a cerr, ~ In (EvZFSCreatePlaceholderFilesystem a (Some cerr)) (trace r)) ->
   exists args, In (EvZFSRecv (ToString L lp) (Some s) args (value r)) (trace r)).
Proof.
  intros Hp Hm r.
  destruct (Receive_cases L B e req s w p lp Hp Hm)
    as (tr & Hcalls & Hprobed & Hcreated & Hcase).
  fold r in Hcase.
  assert (Hfail : forall a props err res,
             walkTrace (ZREPL_PLACEHOLDER_PROPERTY_NAME L) (ancestors lp) tr res ->
             In a (ancestors lp) ->
             In (EvZFSGet a props (Err err)) (tr ++ [EvClose s]) \/
             (exists g args rv,
                In (EvZFSGet a props (Err err))
                   (tr ++ [EvZFSGet lp [ZREPL_PLACEHOLDER_PROPERTY_NAME L] g;
                           EvZFSRecv (ToString L lp) (Some s) args rv; EvClose s])) ->
             In a (created tr)).
  { intros a props err res Hw Ha Hin.
    assert (In (EvZFSGet a props (Err err)) tr) as Hin'.
    { destruct Hin as [Hin|(g & args & rv & Hin)]; apply in_app_or in Hin as [Hin|Hin];
        try exact Hin.
      - destruct Hin as [Hin|[]]; discriminate.
      - destruct Hin as [Hin|[Hin|[Hin|[]]]]; try discriminate.
        injection Hin as <- _ _. exfalso. exact (ancestors_not_target _ _ Ha eq_refl). }
    eapply walkTrace_failed_probe; eassumption. }
  destruct Hcase as [(cerr & Hw & Hv & Htr)|(g & Hw & Htr)]; rewrite Htr.
  - repeat split.
    + intros a props err Ha Hin. rewrite created_app. apply in_or_app. left.
      eapply Hfail; eauto.
    + apply in_app_or in H as [H|[H|[]]]; [|discriminate].
      rewrite Hv. f_equal. symmetry.
      eapply (walkTrace_creation_failed _ _ _ _ _ _ Hw) in H. congruence.
    + apply Forall_app. split; [apply repair_call_not_recv, Hcalls|].
      repeat constructor.
    + intros Hnone. exfalso.
      destruct (walkTrace_halted _ _ _ _ Hw) as (pre & a & err & _ & ->).
      apply (Hnone a cerr). apply in_or_app. left. apply in_or_app. right.
      right. left. reflexivity.
  - repeat split.
    + intros a props err Ha Hin. rewrite created_app. apply in_or_app. left.
      eapply Hfail; eauto 10.
    + apply in_app_or in H as [H|[H|[H|[H|[]]]]]; try discriminate.
      apply (walkTrace_creation_failed _ _ _ _ _ _ Hw) in H. discriminate.
    + apply in_app_or in H as [H|[H|[H|[H|[]]]]]; try discriminate.
      apply (walkTrace_creation_failed _ _ _ _ _ _ Hw) in H. discriminate.
    + intros _. eexists. apply in_or_app. right. right. left. reflexivity.
Qed.

(** C3.  [Receive] passes the force directive [-F] to the backend receive if
    and only if the read of the placeholder property on the target itself
    succeeds and the value read marks the target as a placeholder; otherwise
    the backend receive is invoked without arguments.  The target is read
    once, and the receive goes to the target with the stream of the call.
    Once the ancestor walk has ended without error the receive is invoked,
    exactly once: with [-F] when the target, read after the walk, is marked,
    and without arguments when it is not; and what it answers is what
    [Receive] returns.  After a walk that ended in an error there is no
    receive. *)
Theorem Receive_forces_iff_placeholder
  (e : Receiver.t T) (req : pdu.ReceiveReq.t) (s : Stream) (w : W) (p lp : zfs.DatasetPath) :
  NewDatasetPath L (pdu.ReceiveReq.Filesystem req) = Ok p ->
  FSMap.Map (Receiver.fsmap e) p = Ok (Some lp) ->
  let name := ZREPL_PLACEHOLDER_PROPERTY_NAME L in
  let r := Receiver.Receive L B e req (Some s) w in
  let walk := Receiver.createPlaceholders L B lp w in
  let g := fst (run_ZFSGet B lp [name] (world walk)) in
  let marked :=
    exists props, g = Ok props /\ fst (IsPlaceholder L lp (zfs.Get props name)) = true in
  (value walk = None ->
   In (EvZFSGet lp [name] g) (trace r) /\
   (marked -> In (EvZFSRecv (ToString L lp) (Some s) ["-F"] (value r)) (trace r)) /\
   (~ marked -> In (EvZFSRecv (ToString L lp) (Some s) [] (value r)) (trace r)) /\
   length (List.filter is_recv (trace r)) = 1%nat) /\
  (forall err, value walk = Some err -> List.filter is_recv (trace r) = []) /\
  (forall fs st args res,
    In (EvZFSRecv fs st args res) (trace r) ->
    fs = ToString L lp /\ st = Some s /\
    exists g,
      In (EvZFSGet lp [name] g) (trace r) /\
      (forall props g', In (EvZFSGet lp props g') (trace r) -> g' = g) /\
      (args = ["-F"] <->
       exists props, g = Ok props /\ fst (IsPlaceholder L lp (zfs.Get props name)) = true) /\
      (args = ["-F"] \/ args = [])).
Proof.
  intros Hp Hm name r walk g marked.
  assert (Hforce : Receiver.needForceRecv L lp g = true <-> marked).
  { unfold Receiver.needForceRecv, marked. fold name. destruct g as [props|err].
    - split; [intros H; exists props; auto|].
      intros (props' & E & H). injection E as <-. exact H.
    - split; [discriminate|]. intros (props' & E & _). discriminate. }
  assert (Hwalk : List.filter is_recv (trace walk) = []).
  { pose proof (createPlaceholders_trace L B lp w) as Hw. cbn zeta in Hw.
    destruct (walkTrace_calls _ _ _ _ Hw) as (Hcalls & _ & _).
    apply repair_call_not_recv in Hcalls. fold walk in Hcalls.
    induction Hcalls as [|ev tr Hev _ IH]; [reflexivity|]. cbn. rewrite Hev. exact IH. }
  split; [|split].
  - intros Hv. unfold r. rewrite (Receive_run L B e req s w p lp Hp Hm).
    fold name walk. rewrite Hv. fold g. cbn [value trace fst snd].
    split; [apply in_or_app; right; left; reflexivity|]. split; [|split].
    + intros Hmarked. apply Hforce in Hmarked. rewrite Hmarked.
      apply in_or_app. right. right. left. reflexivity.
    + intros Hnot. destruct (Receiver.needForceRecv L lp g) eqn:Hn.
      * exfalso. apply Hnot, Hforce. reflexivity.
      * apply in_or_app. right. right. left. reflexivity.
    + rewrite filter_app, Hwalk. reflexivity.
  - intros err Hv. unfold r. rewrite (Receive_run L B e req s w p lp Hp Hm).
    fold name walk. rewrite Hv. cbn [trace snd]. rewrite filter_app, Hwalk. reflexivity.
  - intros fs st args res Hin.
    destruct (Receive_cases L B e req s w p lp Hp Hm)
      as (tr & Hcalls & Hprobed & Hcreated & Hcase).
    fold r name in Hcase.
    assert (Hnorecv : forall x, ~ In (EvZFSRecv fs st args res) (tr ++ [EvClose x])).
    { intros x H. apply in_app_or in H as [H|[H|[]]]; [|discriminate].
      apply repair_call_not_recv in Hcalls.
      rewrite Forall_forall in Hcalls. apply Hcalls in H. discriminate. }
    destruct Hcase as [(cerr & _ & _ & Htr)|(g0 & Hw & Htr)]; rewrite Htr in Hin |- *.
    { exfalso. exact (Hnorecv _ Hin). }
    apply in_app_or in Hin as [Hin|[Hin|[Hin|[Hin|[]]]]]; try discriminate.
    { exfalso. apply (Hnorecv s). apply in_or_app. left. exact Hin. }
    injection Hin as <- <- <- _.
    split; [reflexivity|]. split; [reflexivity|].
    exists g0. split; [apply in_or_app; right; left; reflexivity|].
    split.
    + intros props g' H. apply in_app_or in H as [H|[H|[H|[H|[]]]]]; try discriminate.
      * exfalso. apply In_probed, Hprobed, ancestors_not_target in H. congruence.
      * congruence.
    + destruct (recvArgs_force (Receiver.needForceRecv L lp g0)) as [Hiff Hor].
      split; [|exact Hor]. rewrite Hiff. unfold Receiver.needForceRecv. fold name.
      destruct g0 as [props|err].
      * split; [intros H; exists props; auto|].
        intros (props' & E & H). injection E as <-. exact H.
      * split; [discriminate|]. intros (props' & E & _). discriminate.
Qed.
(** C8.  A failure of the read of the placeholder property on the target
    itself is swallowed: [Receive] goes on to invoke the backend receive
    without the force directive and returns what that receive answers, not
    the error of the read. *)
Theorem Receive_swallows_target_probe_error
  (e : Receiver.t T) (req : pdu.ReceiveReq.t) (s : Stream) (w : W) (p lp : zfs.DatasetPath) :
  NewDatasetPath L (pdu.ReceiveReq.Filesystem req) = Ok p ->
  FSMap.Map (Receiver.fsmap e) p = Ok (Some lp) ->
  let r := Receiver.Receive L B e req (Some s) w in
  forall props err,
    In (EvZFSGet lp props (Err err)) (trace r) ->
    In (EvZFSRecv (ToString L lp) (Some s) [] (value r)) (trace r).
Proof.
  intros Hp Hm r props err Hin.
  destruct (Receive_cases L B e req s w p lp Hp Hm)
    as (tr & Hcalls & Hprobed & Hcreated & Hcase).
  fold r in Hcase.
  assert (Hnot : ~ In (EvZFSGet lp props (Err err)) tr).
  { intros H. apply In_probed, Hprobed, ancestors_not_target in H. congruence. }
  destruct Hcase as [(cerr & _ & _ & Htr)|(g & Hw & Htr)]; rewrite Htr in Hin |- *.
  - apply in_app_or in Hin as [Hin|[Hin|[]]]; [contradiction|discriminate].
  - apply in_app_or in Hin as [Hin|[Hin|[Hin|[Hin|[]]]]];
      [contradiction| |discriminate|discriminate].
    injection Hin as _ ->. apply in_or_app. right. right. left. reflexivity.
Qed.

(** C7, as the code has it.  The ancestor walk of [Receive] only probes and
    creates, and only at ancestors strictly above the target: the target
    itself and every path off the chain of ancestors are left alone.  An
    ancestor whose probe fails gets a placeholder creation, one whose probe
    answers is left as it is, and in both cases the walk goes on to the next
    ancestor below: a walk that ends without error has probed every ancestor,
    root first, and all its creations succeeded.  [Receive] creates no
    placeholder outside this walk. *)
Theorem createPlaceholders_repairs_ancestors (lp : zfs.DatasetPath) (w : W) :
  let r := Receiver.createPlaceholders L B lp w in
  Forall (fun ev => is_repair_call ev = true) (trace r) /\
  incl (probed (trace r)) (ancestors lp) /\
  incl (created (trace r)) (ancestors lp) /\
  ~ In lp (probed (trace r)) /\ ~ In lp (created (trace r)) /\
  (forall a props err,
     In (EvZFSGet a props (Err err)) (trace r) -> In a (created (trace r))) /\
  (forall a props found,
     In (EvZFSGet a props (Ok found)) (trace r) -> ~ In a (created (trace r))) /\
  (value r = None ->
   probed (trace r) = ancestors lp /\
   forall a c, In (EvZFSCreatePlaceholderFilesystem a c) (trace r) -> c = None) /\
  (forall (e : Receiver.t T) (req : pdu.ReceiveReq.t) (s : Stream) (p : zfs.DatasetPath),
     NewDatasetPath L (pdu.ReceiveReq.Filesystem req) = Ok p ->
     FSMap.Map (Receiver.fsmap e) p = Ok (Some lp) ->
     exists rest,
       trace (Receiver.Receive L B e req (Some s) w) = trace r ++ rest /\
       created rest = []).
Proof.
  intros r. pose proof (createPlaceholders_trace L B lp w) as Hw. cbn zeta in Hw. fold r in Hw.
  destruct (walkTrace_calls _ _ _ _ Hw) as (Hf & Hp & Hc).
  split; [exact Hf|]. split; [exact Hp|]. split; [exact Hc|].
  split; [intros H; exact (ancestors_not_target _ _ (Hp _ H) eq_refl)|].
  split; [intros H; exact (ancestors_not_target _ _ (Hc _ H) eq_refl)|].
  split; [intros a props err; apply (walkTrace_failed_probe _ _ _ _ _ _ _ Hw)|].
  split.
  { intros a props found.
    apply (walkTrace_existing_untouched _ _ _ _ _ _ _ (ancestors_NoDup lp) Hw). }
  split.
  { intros Hv. rewrite Hv in Hw. apply (walkTrace_complete _ _ _ Hw). }
  intros e req s p Hp' Hm. rewrite (Receive_run L B e req s w p lp Hp' Hm). fold r.
  destruct (value r); eexists; (split; [reflexivity|reflexivity]).
Qed.

End ReceiveClaims.

(** The walk in the scenario of the specification: the parent and the
    grandparent of the target are missing, and exactly these two are
    created. *)
Example Receive_creates_parent_and_grandparent :
  let r := Receiver.Receive memfs.lib memfs.backend scenario.receiver scenario.reqABC (Some 1%nat)
             scenario.poolOnly in
  value r = None /\
  created (trace r) = [["pool"; "a"]; ["pool"; "a"; "b"]] /\
  memfs.received (world r) = [("pool/a/b/c", [])].
Proof. vm_compute. repeat split. Qed.

(** C1, counterexample.  The probe of [pool/a] fails with an I/O error, which
    is not "does not exist"; all the same a placeholder is created at
    [pool/a] and [Receive] returns without error. *)
Lemma probe_failure_halts_fails : ~ probe_failure_halts.
Proof.
  intros H.
  specialize (H memfs.World memfs.prefixMap _ memfs.lib memfs.backend
                scenario.receiver scenario.reqABC 1%nat scenario.faultyProbe
                ["a"; "b"; "c"] ["pool"; "a"; "b"; "c"] ["pool"; "a"]
                [memfs.placeholderName] (errorString "cannot open dataset: I/O error")
                eq_refl eq_refl).
  destruct H as [Hv _].
  - vm_compute. auto.
  - vm_compute. auto.
  - reflexivity.
  - vm_compute in Hv. discriminate.
Qed.

(** C7, counterexample.  Receiving into [pool/a/b] where only [pool] exists:
    the probe of [pool] answers, and the walk still descends to its child
    [pool/a], probes it and creates it. *)
Lemma walk_stops_below_existing_fails : ~ walk_stops_below_existing.
Proof.
  intros H.
  specialize (H memfs.World memfs.lib memfs.backend ["pool"; "a"; "b"] scenario.poolOnly
                ["pool"] [memfs.placeholderName] {[ memfs.placeholderName := "" ]} ["a"]).
  cbn zeta in H.
  destruct H as [H _]; [vm_compute; auto|discriminate|].
  apply H. vm_compute. auto.
Qed.

Lemma Receive_probe_failure_creates_placeholder_witness :
  let r := Receiver.Receive memfs.lib memfs.backend scenario.receiver scenario.reqABC (Some 1%nat)
             scenario.faultyProbe in
  In (EvZFSGet ["pool"; "a"] [memfs.placeholderName]
        (Err (errorString "cannot open dataset: I/O error"))) (trace r) /\
  In ["pool"; "a"] (created (trace r)) /\
  exists args, In (EvZFSRecv "pool/a/b/c" (Some 1%nat) args (value r)) (trace r).
Proof.
  intros r.
  destruct (Receive_probe_failure_creates_placeholder (FSMapT := memfs.prefixMap_FSMap)
              memfs.lib memfs.backend scenario.receiver scenario.reqABC 1%nat scenario.faultyProbe
              ["a"; "b"; "c"] ["pool"; "a"; "b"; "c"] eq_refl eq_refl)
    as (Hcreate & _ & Hrecv).
  assert (Hin : In (EvZFSGet ["pool"; "a"] [memfs.placeholderName]
                      (Err (errorString "cannot open dataset: I/O error"))) (trace r))
    by (vm_compute; auto).
  split; [exact Hin|]. split.
  - eapply (Hcreate ["pool"; "a"]); [vm_compute; auto|exact Hin].
  - apply Hrecv. intros a cerr H. vm_compute in H.
    repeat (destruct H as [H|H]; [discriminate|]). exact H.
Defined.

Lemma Receive_forces_iff_placeholder_witness :
  let forced := Receiver.Receive memfs.lib memfs.backend scenario.receiver scenario.reqA
                  (Some 1%nat) scenario.placeholderTarget in
  let plain := Receiver.Receive memfs.lib memfs.backend scenario.receiver scenario.reqA
                 (Some 1%nat) scenario.withSnapshots in
  In (EvZFSRecv "pool/a" (Some 1%nat) ["-F"] None) (trace forced) /\
  length (List.filter is_recv (trace forced)) = 1%nat /\
  In (EvZFSRecv "pool/a" (Some 1%nat) [] None) (trace plain) /\
  length (List.filter is_recv (trace plain)) = 1%nat.
Proof.
  intros forced plain.
  destruct (Receive_forces_iff_placeholder (FSMapT := memfs.prefixMap_FSMap) memfs.lib
              memfs.backend scenario.receiver scenario.reqA 1%nat scenario.placeholderTarget
              ["a"] ["pool"; "a"] eq_refl eq_refl) as (Hforced & _ & _).
  destruct (Receive_forces_iff_placeholder (FSMapT := memfs.prefixMap_FSMap) memfs.lib
              memfs.backend scenario.receiver scenario.reqA 1%nat scenario.withSnapshots
              ["a"] ["pool"; "a"] eq_refl eq_refl) as (Hplain & _ & _).
  destruct (Hforced eq_refl) as (_ & Hf & _ & Hf1).
  destruct (Hplain eq_refl) as (_ & _ & Hp & Hp1).
  split.
  - apply Hf. eexists. split; [vm_compute; reflexivity|vm_compute; reflexivity].
  - split; [exact Hf1|]. split; [|exact Hp1].
    apply Hp. intros (props & E & H). vm_compute in E. injection E as <-.
    vm_compute in H. discriminate.
Defined.

Lemma createPlaceholders_repairs_ancestors_witness :
  let r := Receiver.createPlaceholders memfs.lib memfs.backend ["pool"; "a"; "b"; "c"]
             scenario.poolOnly in
  probed (trace r) = [["pool"]; ["pool"; "a"]; ["pool"; "a"; "b"]] /\
  In ["pool"; "a"] (created (trace r)) /\
  In ["pool"; "a"; "b"] (created (trace r)) /\
  ~ In ["pool"] (created (trace r)) /\
  ~ In ["pool"; "a"; "b"; "c"] (created (trace r)) /\
  exists rest,
    trace (Receiver.Receive memfs.lib memfs.backend scenario.receiver scenario.reqABC (Some 1%nat)
             scenario.poolOnly) = trace r ++ rest /\
    created rest = [].
Proof.
  intros r.
  destruct (createPlaceholders_repairs_ancestors (T := memfs.prefixMap)
              (FSMapT := memfs.prefixMap_FSMap) memfs.lib memfs.backend
              ["pool"; "a"; "b"; "c"] scenario.poolOnly)
    as (_ & _ & _ & _ & Htarget & Hmissing & Hexisting & Hcomplete & Hreceive).
  fold r in Htarget, Hmissing, Hexisting, Hcomplete, Hreceive.
  split; [apply Hcomplete; reflexivity|].
  split; [apply (Hmissing _ [memfs.placeholderName] (DatasetDoesNotExist "pool/a"));
          vm_compute; auto|].
  split; [apply (Hmissing _ [memfs.placeholderName] (DatasetDoesNotExist "pool/a/b"));
          vm_compute; auto 10|].
  split; [apply (Hexisting _ [memfs.placeholderName] {[ memfs.placeholderName := "" ]});
          vm_compute; auto|].
  split; [exact Htarget|].
  apply (Hreceive scenario.receiver scenario.reqABC 1%nat ["a"; "b"; "c"]); reflexivity.
Defined.

Lemma Receive_swallows_target_probe_error_witness :
  let r := Receiver.Receive memfs.lib memfs.backend scenario.receiver scenario.reqABC (Some 1%nat)
             scenario.poolOnly in
  In (EvZFSGet ["pool"; "a"; "b"; "c"] [memfs.placeholderName]
        (Err (DatasetDoesNotExist "pool/a/b/c"))) (trace r) /\
  In (EvZFSRecv "pool/a/b/c" (Some 1%nat) [] None) (trace r) /\
  value r = None.
Proof.
  intros r.
  assert (Hin : In (EvZFSGet ["pool"; "a"; "b"; "c"] [memfs.placeholderName]
                      (Err (DatasetDoesNotExist "pool/a/b/c"))) (trace r))
    by (vm_compute; auto 10).
  split; [exact Hin|].
  pose proof (Receive_swallows_target_probe_error (FSMapT := memfs.prefixMap_FSMap) memfs.lib memfs.backend scenario.receiver
                scenario.reqABC 1%nat scenario.poolOnly ["a"; "b"; "c"] ["pool"; "a"; "b"; "c"]
                eq_refl eq_refl _ _ Hin) as H.
  split; [exact H|reflexivity].
Defined.

(** ** The sender and batch destruction: the claims *)

Section SenderClaims.
Context {W : Type} (L : Lib) (B : Backend W).

(** C2.  For a path the sender's filter denies, [ListFilesystemVersions],
    [Send] and [DestroySnapshots] each return the filtered error for that
    path, which is told apart from every other error, and make no call at
    all: nothing is listed, sized, sent or destroyed, and the world is as
    before. *)
Theorem Sender_filtered_path (p : Sender.t) (fs : string) (dp : zfs.DatasetPath) (w : W) :
  NewDatasetPath L fs = Ok dp ->
  Sender.FSFilter p dp = Ok false ->
  Sender.ListFilesystemVersions L B p fs w = (Err (NewFilteredError fs), w, []) /\
  (forall from_ to_,
     Sender.Send L B p
       {| pdu.SendReq.Filesystem := fs; pdu.SendReq.From := from_; pdu.SendReq.To := to_ |} w
     = (Err (NewFilteredError fs), w, [])) /\
  (forall snaps,
     Sender.DestroySnapshots L B p
       {| pdu.DestroySnapshotsReq.Filesystem := fs;
          pdu.DestroySnapshotsReq.Snapshots := snaps |} w
     = (Err (NewFilteredError fs), w, [])) /\
  is_FilteredError (NewFilteredError fs) = true /\
  (forall e, is_FilteredError e = false -> e <> NewFilteredError fs).
Proof.
  intros Hdp Hdeny. repeat split.
  - unfold Sender.ListFilesystemVersions. rewrite Hdp, Hdeny. reflexivity.
  - intros from_ to_. unfold Sender.Send. cbn [pdu.SendReq.Filesystem].
    rewrite Hdp, Hdeny. reflexivity.
  - intros snaps. unfold Sender.DestroySnapshots. cbn [pdu.DestroySnapshotsReq.Filesystem].
    rewrite Hdp, Hdeny. reflexivity.
  - intros e He ->. discriminate.
Qed.

(** *** Batch destruction *)

Lemma convertSnaps_bad (snaps : list pdu.FilesystemVersion.t) :
  (exists fsv, In fsv snaps /\
     (pdu.FilesystemVersion.Type' fsv <> pdu.FilesystemVersion_Snapshot \/
      exists err, ZFSFilesystemVersion L fsv = Err err)) ->
  exists err, convertSnaps L snaps = Err err.
Proof.
  induction snaps as [|fsv snaps IH]; intros (bad & Hin & Hbad); [destruct Hin|].
  cbn [convertSnaps].
  destruct (pdu.FilesystemVersion.Type' fsv) eqn:Ht; [|eauto].
  destruct (ZFSFilesystemVersion L fsv) as [v|err] eqn:Hc; [|eauto].
  destruct Hin as [<-|Hin].
  - destruct Hbad as [Hbad|[err Hbad]]; congruence.
  - destruct IH as [err ->]; eauto.
Qed.

Lemma convertSnaps_good (snaps : list pdu.FilesystemVersion.t) :
  (forall fsv, In fsv snaps ->
     pdu.FilesystemVersion.Type' fsv = pdu.FilesystemVersion_Snapshot /\
     exists v, ZFSFilesystemVersion L fsv = Ok v) ->
  exists fsvs, convertSnaps L snaps = Ok fsvs /\ length fsvs = length snaps.
Proof.
  induction snaps as [|fsv snaps IH]; intros Hgood.
  - exists []. split; reflexivity.
  - cbn [convertSnaps].
    destruct (Hgood fsv (or_introl eq_refl)) as (-> & v & ->).
    destruct IH as (fsvs & -> & Hlen); [intros x Hx; apply Hgood; right; exact Hx|].
    exists (v :: fsvs). split; [reflexivity|cbn; congruence].
Qed.

Lemma destroyEach_cons (lp : zfs.DatasetPath) (fsv : zfs.FilesystemVersion)
  (rest : list zfs.FilesystemVersion) (w : W) :
  let d := run_ZFSDestroyFilesystemVersion B lp fsv w in
  let r := destroyEach L B lp rest (snd d) in
  destroyEach L B lp (fsv :: rest) w =
  ({| pdu.DestroySnapshotRes.Snapshot := FilesystemVersionFromZFS L fsv;
      pdu.DestroySnapshotRes.Error :=
        match fst d with Some e => Error L e | None => "" end |} :: value r,
   world r,
   EvZFSDestroyFilesystemVersion lp fsv (fst d) :: trace r).
Proof.
  intros d r. subst d r. cbn [destroyEach].
  unfold bind, ZFSDestroyFilesystemVersion, call, ret, value, world, trace.
  destruct (run_ZFSDestroyFilesystemVersion B lp fsv w) as [err w1]; cbn [fst snd].
  destruct (destroyEach L B lp rest w1) as [[results w2] t2]; cbn [fst snd].
  rewrite app_nil_r. reflexivity.
Qed.

Lemma destroyEach_results (lp : zfs.DatasetPath) (fsvs : list zfs.FilesystemVersion) :
  forall w : W,
  let r := destroyEach L B lp fsvs w in
  length (value r) = length fsvs /\
  length (trace r) = length fsvs /\
  Forall (destroysOn lp) (trace r) /\
  ((forall fs v err,
      In (EvZFSDestroyFilesystemVersion fs v (Some err)) (trace r) -> Error L err <> "") ->
   count hasErrorText (value r) = count destroyFailed (trace r)).
Proof.
  induction fsvs as [|fsv rest IH]; intros w r; subst r.
  - cbn. repeat split; constructor.
  - rewrite destroyEach_cons. cbn [value world trace fst snd length].
    destruct (IH (snd (run_ZFSDestroyFilesystemVersion B lp fsv w)))
      as (Hlen & Hlent & Hon & Hcount).
    split; [congruence|]. split; [congruence|]. split.
    { constructor; [eexists _, _; reflexivity|exact Hon]. }
    intros Htext.
    assert (Hrest : count hasErrorText
                      (value (destroyEach L B lp rest
                                (snd (run_ZFSDestroyFilesystemVersion B lp fsv w))))
                    = count destroyFailed
                        (trace (destroyEach L B lp rest
                                  (snd (run_ZFSDestroyFilesystemVersion B lp fsv w))))).
    { apply Hcount. intros fs v err Hin. apply (Htext fs v err). right. exact Hin. }
    unfold count in *. cbn [List.filter].
    destruct (fst (run_ZFSDestroyFilesystemVersion B lp fsv w)) as [err|] eqn:Hd;
      unfold hasErrorText at 1; cbn [pdu.DestroySnapshotRes.Error destroyFailed].
    + destruct (String.eqb_spec (Error L err) "") as [E|_].
      * exfalso. apply (Htext lp fsv err); [left; reflexivity|exact E].
      * cbn [negb length]. congruence.
    + cbn. exact Hrest.
Qed.

Lemma count_complement {A : Type} (f : A -> bool) (l : list A) :
  count (fun x => negb (f x)) l = (length l - count f l)%nat.
Proof.
  unfold count. induction l as [|x l IH]; [reflexivity|].
  cbn [List.filter length]. destruct (f x); cbn [negb length].
  - exact IH.
  - rewrite IH. pose proof (filter_length_le f l). lia.
Qed.

(** C4, as the code has it.  If a requested item is not a snapshot, or does
    not convert to a version of the filesystem engine, the call fails with one
    error before any destroy is attempted.  Otherwise the call succeeds with
    one result per requested item after one destroy call per item; and when
    the errors of the failed destroys have a non-empty text, as many results
    carry a non-empty error text as destroys failed, and the others an empty
    one. *)
Theorem doDestroySnapshots_batch (lp : zfs.DatasetPath)
  (snaps : list pdu.FilesystemVersion.t) (w : W) :
  let r := doDestroySnapshots L B lp snaps w in
  ((exists fsv, In fsv snaps /\
      (pdu.FilesystemVersion.Type' fsv <> pdu.FilesystemVersion_Snapshot \/
       exists err, ZFSFilesystemVersion L fsv = Err err)) ->
   exists err, value r = Err err /\ world r = w /\ trace r = []) /\
  ((forall fsv, In fsv snaps ->
      pdu.FilesystemVersion.Type' fsv = pdu.FilesystemVersion_Snapshot /\
      exists v, ZFSFilesystemVersion L fsv = Ok v) ->
   exists res,
     value r = Ok res /\
     length (pdu.DestroySnapshotsRes.Results res) = length snaps /\
     length (trace r) = length snaps /\
     Forall (destroysOn lp) (trace r) /\
     ((forall fs v err,
         In (EvZFSDestroyFilesystemVersion fs v (Some err)) (trace r) -> Error L err <> "") ->
      count hasErrorText (pdu.DestroySnapshotsRes.Results res) = count destroyFailed (trace r) /\
      count (fun x => negb (hasErrorText x)) (pdu.DestroySnapshotsRes.Results res)
      = (length snaps - count destroyFailed (trace r))%nat)).
Proof.
  intros r. subst r. unfold doDestroySnapshots. split.
  - intros Hbad. destruct (convertSnaps_bad snaps Hbad) as [err ->].
    exists err. repeat split.
  - intros Hgood. destruct (convertSnaps_good snaps Hgood) as (fsvs & -> & Hlen).
    rewrite bind_run. cbn [ret value world trace fst snd]. rewrite app_nil_r.
    destruct (destroyEach_results lp fsvs w) as (Hl & Hlt & Hon & Hcount).
    eexists. split; [reflexivity|]. cbn [pdu.DestroySnapshotsRes.Results].
    split; [congruence|]. split; [congruence|]. split; [exact Hon|].
    intros Htext. split; [exact (Hcount Htext)|].
    rewrite count_complement, (Hcount Htext). congruence.
Qed.

End SenderClaims.

Lemma Sender_filtered_path_witness :
  Sender.ListFilesystemVersions memfs.lib memfs.backend scenario.sender "pool/b"
    scenario.withSnapshots
  = (Err (FilteredError "pool/b"), scenario.withSnapshots, []) /\
  Sender.Send memfs.lib memfs.backend scenario.sender
    {| pdu.SendReq.Filesystem := "pool/b"; pdu.SendReq.From := "s1"; pdu.SendReq.To := "s3" |}
    scenario.withSnapshots
  = (Err (FilteredError "pool/b"), scenario.withSnapshots, []) /\
  Sender.DestroySnapshots memfs.lib memfs.backend scenario.sender
    {| pdu.DestroySnapshotsReq.Filesystem := "pool/b";
       pdu.DestroySnapshotsReq.Snapshots := [scenario.snapshot "s1" ""] |}
    scenario.withSnapshots
  = (Err (FilteredError "pool/b"), scenario.withSnapshots, []).
Proof.
  destruct (Sender_filtered_path memfs.lib memfs.backend scenario.sender "pool/b"
              ["pool"; "b"] scenario.withSnapshots eq_refl eq_refl)
    as (Hlist & Hsend & Hdestroy & _).
  split; [exact Hlist|]. split; [apply Hsend|apply Hdestroy].
Defined.

(** C4, counterexample.  A batch of one snapshot whose creation time does not
    parse: every item is a snapshot, and the call fails. *)
Lemma snapshots_only_succeeds_fails : ~ snapshots_only_succeeds.
Proof.
  intros H.
  destruct (H memfs.World memfs.lib memfs.backend ["pool"; "a"]
              [scenario.snapshot "s1" "yesterday"] scenario.withSnapshots)
    as (res & Hres & _).
  - intros fsv [<-|[]]. reflexivity.
  - vm_compute in Hres. discriminate.
Qed.

Lemma doDestroySnapshots_batch_witness :
  let r := doDestroySnapshots memfs.lib memfs.backend ["pool"; "a"]
             [scenario.snapshot "s1" ""; scenario.snapshot "s2" ""; scenario.snapshot "s3" ""]
             scenario.withSnapshots in
  (exists res,
     value r = Ok res /\
     length (pdu.DestroySnapshotsRes.Results res) = 3%nat /\
     count hasErrorText (pdu.DestroySnapshotsRes.Results res) = 1%nat /\
     count (fun x => negb (hasErrorText x)) (pdu.DestroySnapshotsRes.Results res) = 2%nat) /\
  (exists err,
     doDestroySnapshots memfs.lib memfs.backend ["pool"; "a"]
       [scenario.snapshot "s1" ""; scenario.bookmark "b1"] scenario.withSnapshots
     = (Err err, scenario.withSnapshots, [])).
Proof.
  intros r. split.
  - destruct (doDestroySnapshots_batch memfs.lib memfs.backend ["pool"; "a"]
                [scenario.snapshot "s1" ""; scenario.snapshot "s2" ""; scenario.snapshot "s3" ""]
                scenario.withSnapshots) as [_ Hgood].
    destruct Hgood as (res & Hres & Hlen & _ & _ & Hcount).
    { intros fsv [<-|[<-|[<-|[]]]]; (split; [reflexivity|eexists; reflexivity]). }
    destruct Hcount as [Hfailed Hok].
    { intros fs v err Hin. vm_compute in Hin.
      destruct Hin as [Hin|[Hin|[Hin|[]]]]; try discriminate.
      injection Hin as _ _ <-. discriminate. }
    exists res. split; [exact Hres|]. split; [exact Hlen|].
    split; [rewrite Hfailed; reflexivity|rewrite Hok; reflexivity].
  - destruct (doDestroySnapshots_batch memfs.lib memfs.backend ["pool"; "a"]
                [scenario.snapshot "s1" ""; scenario.bookmark "b1"]
                scenario.withSnapshots) as [Hbad _].
    destruct Hbad as (err & Hv & Hw & Ht).
    { exists (scenario.bookmark "b1"). split; [right; left; reflexivity|].
      left. discriminate. }
    exists err. rewrite (run_eta (doDestroySnapshots _ _ _ _ _)), Hv, Hw, Ht. reflexivity.
Defined.

(** ** The dispatcher and the client stub: the claims *)

Section HandlerClaims.
Context {W : Type} {codec : Codec}.

(** C5.  The dispatcher answers [Send] and [SnapshotReplicationStatus] when
    the bound endpoint is no sender, [Receive] when it is no receiver, and
    every call name it does not know, with one and the same error, "no
    handler for given endpoint": nothing tells which capability is missing.
    The endpoint is not invoked and nothing is decoded. *)
Theorem Handle_no_handler (a : Handler.t W) (reqStructured : bytes) (reqStream : ReadCloser)
  (w : W) :
  let answer : result (bytes * ReadCloser) * W * list Event :=
    (Err (errorString "no handler for given endpoint"), w, []) in
  (replication.asSender (Handler.ep a) = None ->
   Handler.Handle a RPCSend reqStructured reqStream w = answer /\
   Handler.Handle a RPCSnapshotReplicationStatus reqStructured reqStream w = answer) /\
  (replication.asReceiver (Handler.ep a) = None ->
   Handler.Handle a RPCReceive reqStructured reqStream w = answer) /\
  (forall endpoint,
     ~ In endpoint RPCNames ->
     Handler.Handle a endpoint reqStructured reqStream w = answer).
Proof.
  intros answer. subst answer. split; [|split].
  - intros Hs. unfold Handler.Handle. cbn [String.eqb RPCSend RPCSnapshotReplicationStatus
      RPCListFilesystems RPCListFilesystemVersions RPCReceive RPCSDestroySnapshots
      Ascii.eqb Bool.eqb].
    rewrite Hs. split; reflexivity.
  - intros Hr. unfold Handler.Handle. cbn [String.eqb RPCSend RPCSnapshotReplicationStatus
      RPCListFilesystems RPCListFilesystemVersions RPCReceive RPCSDestroySnapshots
      Ascii.eqb Bool.eqb].
    rewrite Hr. reflexivity.
  - intros endpoint Hnot. unfold Handler.Handle.
    repeat match goal with
    | |- context [String.eqb endpoint ?n] =>
      let E := fresh "E" in
      destruct (String.eqb_spec endpoint n) as [E|E];
        [exfalso; apply Hnot; rewrite E; unfold RPCNames; cbn [In]; tauto|]
    end.
    reflexivity.
Qed.

End HandlerClaims.


Section RemoteClaims.
Context {C : Type} {codec : Codec} (c : streamrpc.Client C).

(** C6.  On the client stub, a [Send] whose response carries no stream fails
    with the error "response does not contain a stream", and a
    [ListFilesystems], [ListFilesystemVersions], [DestroySnapshots] or
    [Receive] whose response carries a stream closes that stream and fails
    with "response contains unexpected stream".  Both errors are raised
    before, and whatever the outcome of, the decoding of the response, and
    the request is issued exactly once. *)
Theorem Remote_stream_mismatch (t : C) :
  (forall r b rb t',
     proto.Marshal r = Ok b ->
     streamrpc.run_RequestReply c RPCSend b None t = (Ok (rb, None), t') ->
     Remote.Send c r t
     = (Err (errorString "response does not contain a stream"), t',
        [EvRequestReply RPCSend b None])) /\
  (forall b rb rs t',
     proto.Marshal pdu.ListFilesystemReq.Build_t = Ok b ->
     streamrpc.run_RequestReply c RPCListFilesystems b None t = (Ok (rb, Some rs), t') ->
     Remote.ListFilesystems c t
     = (Err (errorString "response contains unexpected stream"), t',
        [EvRequestReply RPCListFilesystems b None; EvClose rs])) /\
  (forall fs b rb rs t',
     proto.Marshal {| pdu.ListFilesystemVersionsReq.Filesystem := fs |} = Ok b ->
     streamrpc.run_RequestReply c RPCListFilesystemVersions b None t = (Ok (rb, Some rs), t') ->
     Remote.ListFilesystemVersions c fs t
     = (Err (errorString "response contains unexpected stream"), t',
        [EvRequestReply RPCListFilesystemVersions b None; EvClose rs])) /\
  (forall r b rb rs t',
     proto.Marshal r = Ok b ->
     streamrpc.run_RequestReply c RPCSDestroySnapshots b None t = (Ok (rb, Some rs), t') ->
     Remote.DestroySnapshots c r t
     = (Err (errorString "response contains unexpected stream"), t',
        [EvRequestReply RPCSDestroySnapshots b None; EvClose rs])) /\
  (forall r s b rb rs t',
     proto.Marshal r = Ok b ->
     streamrpc.run_RequestReply c RPCReceive b (Some s) t = (Ok (rb, Some rs), t') ->
     Remote.Receive c r (Some s) t
     = (Some (errorString "response contains unexpected stream"), t',
        [EvRequestReply RPCReceive b (Some s); EvClose rs; EvClose s])).
Proof.
  split; [|split; [|split; [|split]]].
  - intros r b rb t' Hb Hr.
    unfold Remote.Send, streamrpc.RequestReply, bind, call, ret.
    rewrite Hb, Hr. reflexivity.
  - intros b rb rs t' Hb Hr.
    unfold Remote.ListFilesystems, streamrpc.RequestReply, bind, call, ret, Close.
    cbn zeta. rewrite Hb, Hr. reflexivity.
  - intros fs b rb rs t' Hb Hr.
    unfold Remote.ListFilesystemVersions, streamrpc.RequestReply, bind, call, ret, Close.
    cbn zeta. rewrite Hb, Hr. reflexivity.
  - intros r b rb rs t' Hb Hr.
    unfold Remote.DestroySnapshots, streamrpc.RequestReply, bind, call, ret, Close.
    rewrite Hb, Hr. reflexivity.
  - intros r s b rb rs t' Hb Hr.
    unfold Remote.Receive, defer, streamrpc.RequestReply, bind, call, ret, Close.
    rewrite Hb, Hr. reflexivity.
Qed.

End RemoteClaims.

Lemma Handle_no_handler_witness :
  let answer : result (bytes * ReadCloser) * memfs.World * list Event :=
    (Err (errorString "no handler for given endpoint"), scenario.poolOnly, []) in
  Handler.Handle (codec := memfs.codec) scenario.receiverHandler RPCSend [] None scenario.poolOnly
  = answer /\
  Handler.Handle (codec := memfs.codec) scenario.receiverHandler RPCSnapshotReplicationStatus [] None
    scenario.poolOnly = answer /\
  Handler.Handle (codec := memfs.codec) scenario.senderHandler RPCReceive [] (Some 1%nat)
    scenario.poolOnly = answer /\
  Handler.Handle (codec := memfs.codec) scenario.senderHandler "Ping" [] None scenario.poolOnly
  = answer.
Proof.
  intros answer.
  destruct (Handle_no_handler (codec := memfs.codec) scenario.receiverHandler [] None scenario.poolOnly)
    as (Hsender & _ & _).
  destruct (Handle_no_handler (codec := memfs.codec) scenario.senderHandler [] (Some 1%nat)
              scenario.poolOnly) as (_ & Hreceiver & _).
  destruct (Handle_no_handler (codec := memfs.codec) scenario.senderHandler [] None scenario.poolOnly)
    as (_ & _ & Hunknown).
  destruct (Hsender eq_refl) as [Hsend Hstatus].
  split; [exact Hsend|]. split; [exact Hstatus|]. split; [exact (Hreceiver eq_refl)|].
  apply Hunknown. unfold RPCNames. cbn [In].
  intros [H|[H|[H|[H|[H|[H|[]]]]]]]; discriminate.
Defined.

Lemma Remote_stream_mismatch_witness :
  Remote.Send (codec := memfs.codec) (memfs.peer false)
    {| pdu.SendReq.Filesystem := "pool/a"; pdu.SendReq.From := ""; pdu.SendReq.To := "s1" |} tt
  = (Err (errorString "response does not contain a stream"), tt,
     [EvRequestReply RPCSend [] None]) /\
  Remote.ListFilesystems (codec := memfs.codec) (memfs.peer true) tt
  = (Err (errorString "response contains unexpected stream"), tt,
     [EvRequestReply RPCListFilesystems [] None; EvClose 9%nat]) /\
  Remote.ListFilesystemVersions (codec := memfs.codec) (memfs.peer true) "pool/a" tt
  = (Err (errorString "response contains unexpected stream"), tt,
     [EvRequestReply RPCListFilesystemVersions [] None; EvClose 9%nat]) /\
  Remote.DestroySnapshots (codec := memfs.codec) (memfs.peer true)
    {| pdu.DestroySnapshotsReq.Filesystem := "pool/a";
       pdu.DestroySnapshotsReq.Snapshots := [scenario.snapshot "s1" ""] |} tt
  = (Err (errorString "response contains unexpected stream"), tt,
     [EvRequestReply RPCSDestroySnapshots [] None; EvClose 9%nat]) /\
  Remote.Receive (codec := memfs.codec) (memfs.peer true) scenario.reqA (Some 1%nat) tt
  = (Some (errorString "response contains unexpected stream"), tt,
     [EvRequestReply RPCReceive [] (Some 1%nat); EvClose 9%nat; EvClose 1%nat]).
Proof.
  destruct (Remote_stream_mismatch (codec := memfs.codec) (memfs.peer false) tt)
    as (Hsend & _).
  destruct (Remote_stream_mismatch (codec := memfs.codec) (memfs.peer true) tt)
    as (_ & Hlist & Hversions & Hdestroy & Hreceive).
  split; [apply (Hsend _ [] []); reflexivity|].
  split; [apply (Hlist [] []); reflexivity|].
  split; [apply (Hversions _ [] []); reflexivity|].
  split; [apply (Hdestroy _ [] []); reflexivity|].
  apply (Hreceive _ _ [] []); reflexivity.
Defined.

(** ** Construction of a receiver: the claim *)

Section ReceiverConstruction.
Context {W T : Type} {FSMapT : FSMap.t T} (L : Lib) (B : Backend W).

Lemma no_invert_app (t1 t2 : list Event) :
  no_invert t1 -> no_invert t2 -> no_invert (t1 ++ t2).
Proof. intros H1 H2. apply Forall_app. split; assumption. Qed.

Lemma repair_calls_no_invert (tr : list Event) :
  Forall (fun ev => is_repair_call ev = true) tr -> no_invert tr.
Proof. apply Forall_impl. intros ev H. destruct ev; try discriminate; reflexivity. Qed.

Lemma destroys_no_invert (lp : zfs.DatasetPath) (tr : list Event) :
  Forall (destroysOn lp) tr -> no_invert tr.
Proof. apply Forall_impl. intros ev (v & res & ->). reflexivity. Qed.

Lemma doDestroySnapshots_no_invert (lp : zfs.DatasetPath)
  (snaps : list pdu.FilesystemVersion.t) (w : W) :
  no_invert (trace (doDestroySnapshots L B lp snaps w)).
Proof.
  unfold doDestroySnapshots. destruct (convertSnaps L snaps) as [fsvs|err].
  - rewrite bind_run. cbn [ret value world trace fst snd]. rewrite app_nil_r.
    eapply destroys_no_invert. apply (destroyEach_results L B lp fsvs w).
  - constructor.
Qed.

Lemma Receive_no_invert (e : Receiver.t T) (req : pdu.ReceiveReq.t) (st : ReadCloser) (w : W) :
  no_invert (trace (Receiver.Receive L B e req st w)).
Proof.
  destruct st as [s|]; [|constructor].
  destruct (NewDatasetPath L (pdu.ReceiveReq.Filesystem req)) as [p|err] eqn:Hp.
  2:{ unfold Receiver.Receive, defer. rewrite Hp. repeat constructor. }
  destruct (FSMap.Map (Receiver.fsmap e) p) as [[lp|]|err] eqn:Hm.
  2,3: unfold Receiver.Receive, defer; rewrite Hp, Hm; repeat constructor.
  destruct (Receive_cases L B e req s w p lp Hp Hm) as (tr & Hcalls & _ & _ & Hcase).
  apply repair_calls_no_invert in Hcalls.
  destruct Hcase as [(cerr & _ & _ & ->)|(g & _ & ->)];
    (apply no_invert_app; [exact Hcalls|repeat constructor]).
Qed.

(** C9.  Constructing a receiver calls [Invert] on its map exactly once, at
    construction and before anything else.  When the inversion fails,
    construction fails with the error of the inversion and yields no
    receiver; when it succeeds, the receiver keeps the inverse.  No later
    call on a receiver inverts again. *)
Theorem NewReceiver_inverts_eagerly (fsmap : T) (fsvf : zfs.FilesystemVersionFilter) (w : W) :
  let r := Receiver.NewReceiver fsmap fsvf w in
  trace r = [EvInvert] /\
  world r = w /\
  (forall err, FSMap.Invert fsmap = Err err -> value r = Err err) /\
  (forall fsmapInv,
     FSMap.Invert fsmap = Ok fsmapInv ->
     value r = Ok {| Receiver.fsmapInv := fsmapInv;
                     Receiver.fsmap := fsmap;
                     Receiver.fsvf := fsvf |}) /\
  (forall (e : Receiver.t T) (w' : W),
     no_invert (trace (Receiver.ListFilesystems L B e w')) /\
     (forall fs, no_invert (trace (Receiver.ListFilesystemVersions L B e fs w'))) /\
     (forall req st, no_invert (trace (Receiver.Receive L B e req st w'))) /\
     (forall req, no_invert (trace (Receiver.DestroySnapshots L B e req w')))).
Proof.
  intros r. subst r. unfold Receiver.NewReceiver, Receiver.Invert.
  rewrite bind_run, call_run. cbn [fst snd value world trace].
  destruct (FSMap.Invert fsmap) as [inv|err]; cbn [ret value world trace fst snd app].
  all: split; [reflexivity|]; split; [reflexivity|].
  all: split; [intros err' E; congruence|]; split; [intros inv' E; congruence|].
  all: intros e w'; split; [|split; [|split]].
  all: try (intros req st; apply Receive_no_invert).
  all: try (unfold Receiver.ListFilesystems; rewrite bind_run; unfold ZFSListMapping;
            rewrite call_run; cbn [fst snd value world trace];
            destruct (fst (run_ZFSListMapping B _ w')); repeat constructor).
  all: try (intros fs; unfold Receiver.ListFilesystemVersions;
            destruct (NewDatasetPath L fs) as [p|?]; [|constructor];
            destruct (FSMap.Map (Receiver.fsmap e) p) as [[lp|]|?]; try constructor;
            rewrite bind_run; unfold ZFSListFilesystemVersions; rewrite call_run;
            cbn [fst snd value world trace];
            destruct (fst (run_ZFSListFilesystemVersions B _ _ w')); repeat constructor).
  all: intros req; unfold Receiver.DestroySnapshots;
       destruct (NewDatasetPath L _) as [p|?]; [|constructor];
       destruct (FSMap.Map (Receiver.fsmap e) p) as [[lp|]|?]; try constructor;
       apply doDestroySnapshots_no_invert.
Qed.

End ReceiverConstruction.

Lemma NewReceiver_inverts_eagerly_witness :
  Receiver.NewReceiver (W := memfs.World) (memfs.Prepend ["pool"]) memfs.acceptAll
    scenario.poolOnly
  = (Ok scenario.receiver, scenario.poolOnly, [EvInvert]) /\
  Receiver.NewReceiver (W := memfs.World) memfs.Deny memfs.acceptAll scenario.poolOnly
  = (Err (errorString "mapping is not invertible"), scenario.poolOnly, [EvInvert]).
Proof.
  destruct (NewReceiver_inverts_eagerly (FSMapT := memfs.prefixMap_FSMap) memfs.lib
              memfs.backend (memfs.Prepend ["pool"]) memfs.acceptAll scenario.poolOnly)
    as (Ht & Hw & _ & Hok & _).
  destruct (NewReceiver_inverts_eagerly (FSMapT := memfs.prefixMap_FSMap) memfs.lib
              memfs.backend memfs.Deny memfs.acceptAll scenario.poolOnly)
    as (Ht' & Hw' & Herr & _ & _).
  split.
  - rewrite (run_eta (Receiver.NewReceiver _ _ _)), Ht, Hw, (Hok _ eq_refl). reflexivity.
  - rewrite (run_eta (Receiver.NewReceiver _ _ _)), Ht', Hw', (Herr _ eq_refl). reflexivity.
Defined.

(** * Further properties of the endpoints *)

(** ** Receive *)

Lemma repair_call_not_close (tr : list Event) :
  Forall (fun ev => is_repair_call ev = true) tr ->
  Forall (fun ev => is_close ev = false) tr.
Proof. apply Forall_impl. intros ev H. destruct ev; try discriminate; reflexivity. Qed.

Lemma walkTrace_prefix name l tr res :
  walkTrace name l tr res ->
  (exists rest, l = probed tr ++ rest) /\ sublist (created tr) (probed tr).
Proof.
  induction 1 as [|a l props tr res _ [[rest IHp] IHs]
                  |a l err tr res _ [[rest IHp] IHs]|a l err cerr]; cbn [probed created].
  - split; [exists []; reflexivity|constructor].
  - split; [exists rest; cbn; congruence|apply sublist_cons, IHs].
  - split; [exists rest; cbn; congruence|apply sublist_skip, IHs].
  - split; [exists l; reflexivity|apply sublist_skip; constructor].
Qed.

Section ReceiveExtras.
Context {W T : Type} {FSMapT : FSMap.t T} (L : Lib) (B : Backend W).

(** X3.  The ancestor walk probes the ancestors of the target root first and
    without skipping one: the paths probed are always an initial part of the
    chain of ancestors, also when the walk halts.  Placeholders are created
    among the probed paths and in the same order, and no path is probed or
    created twice. *)
Theorem createPlaceholders_probes_in_order (lp : zfs.DatasetPath) (w : W) :
  let r := Receiver.createPlaceholders L B lp w in
  (exists rest, ancestors lp = probed (trace r) ++ rest) /\
  sublist (created (trace r)) (probed (trace r)) /\
  NoDup (probed (trace r)) /\ NoDup (created (trace r)).
Proof.
  intros r. pose proof (createPlaceholders_trace L B lp w) as Hw. cbn zeta in Hw. fold r in Hw.
  destruct (walkTrace_prefix _ _ _ _ Hw) as [[rest Hp] Hs].
  assert (Hnd : NoDup (probed (trace r))).
  { pose proof (ancestors_NoDup lp) as H. rewrite Hp in H.
    exact (NoDup_app_remove_r _ _ H). }
  split; [exists rest; exact Hp|]. split; [exact Hs|]. split; [exact Hnd|].
  apply NoDup_ListNoDup. eapply sublist_NoDup; [|exact Hs]. apply NoDup_ListNoDup, Hnd.
Qed.

(** X1.  [Receive] on an open stream closes that stream on every exit path,
    exactly once, and as its last call; it closes no other stream. *)
Theorem Receive_closes_stream_once (e : Receiver.t T) (req : pdu.ReceiveReq.t) (s : Stream)
  (w : W) :
  exists pre,
    trace (Receiver.Receive L B e req (Some s) w) = pre ++ [EvClose s] /\
    Forall (fun ev => is_close ev = false) pre.
Proof.
  destruct (NewDatasetPath L (pdu.ReceiveReq.Filesystem req)) as [p|err] eqn:Hp.
  2:{ exists []. unfold Receiver.Receive, defer. rewrite Hp. split; [reflexivity|constructor]. }
  destruct (FSMap.Map (Receiver.fsmap e) p) as [[lp|]|err] eqn:Hm.
  2,3: exists []; unfold Receiver.Receive, defer; rewrite Hp, Hm;
       (split; [reflexivity|constructor]).
  destruct (Receive_cases L B e req s w p lp Hp Hm) as (tr & Hcalls & _ & _ & Hcase).
  apply repair_call_not_close in Hcalls.
  destruct Hcase as [(cerr & _ & _ & ->)|(g & _ & ->)].
  - exists tr. split; [reflexivity|exact Hcalls].
  - eexists (tr ++ [_; _]). rewrite <- app_assoc. split; [reflexivity|].
    apply Forall_app. split; [exact Hcalls|repeat constructor].
Qed.

(** X2.  [Receive] invokes the backend receive at most once.  It returns
    without error only when the backend receive was invoked on the stream of
    the call and answered without error, and then every placeholder creation
    of the walk had succeeded. *)
Theorem Receive_success_means_received (e : Receiver.t T) (req : pdu.ReceiveReq.t)
  (st : ReadCloser) (w : W) :
  let r := Receiver.Receive L B e req st w in
  (length (List.filter is_recv (trace r)) <= 1)%nat /\
  (value r = None ->
   (exists fs args, In (EvZFSRecv fs st args None) (trace r)) /\
   (forall a c, In (EvZFSCreatePlaceholderFilesystem a c) (trace r) -> c = None)).
Proof.
  intros r. subst r. destruct st as [s|]; [|split; [cbn; lia|discriminate]].
  destruct (NewDatasetPath L (pdu.ReceiveReq.Filesystem req)) as [p|err] eqn:Hp.
  2:{ unfold Receiver.Receive, defer. rewrite Hp. split; [cbn; lia|discriminate]. }
  destruct (FSMap.Map (Receiver.fsmap e) p) as [[lp|]|err] eqn:Hm.
  2,3: unfold Receiver.Receive, defer; rewrite Hp, Hm; (split; [cbn; lia|discriminate]).
  destruct (Receive_cases L B e req s w p lp Hp Hm) as (tr & Hcalls & _ & _ & Hcase).
  assert (Hnone : List.filter is_recv tr = []).
  { apply repair_call_not_recv in Hcalls. clear Hcase.
    induction Hcalls as [|ev tr Hev _ IH]; [reflexivity|]. cbn. rewrite Hev. exact IH. }
  destruct Hcase as [(cerr & _ & Hv & ->)|(g & Hw & ->)]; rewrite filter_app, Hnone.
  - split; [cbn; lia|]. rewrite Hv. discriminate.
  - split; [cbn; lia|]. intros Hv. rewrite Hv. split.
    + eexists _, _. apply in_or_app. right. right. left. reflexivity.
    + intros a c Hin. apply in_app_or in Hin as [Hin|[Hin|[Hin|[Hin|[]]]]]; try discriminate.
      apply (walkTrace_complete _ _ _ Hw) in Hin. exact Hin.
Qed.

End ReceiveExtras.

(** ** Guards of the local endpoints *)

Section Guards.
Context {W T : Type} {FSMapT : FSMap.t T} (L : Lib) (B : Backend W).

Lemma doDestroySnapshots_on (lp : zfs.DatasetPath) (snaps : list pdu.FilesystemVersion.t)
  (w : W) :
  Forall (destroysOn lp) (trace (doDestroySnapshots L B lp snaps w)).
Proof.
  unfold doDestroySnapshots. destruct (convertSnaps L snaps) as [fsvs|err].
  - rewrite bind_run. cbn [ret value world trace fst snd]. rewrite app_nil_r.
    apply (destroyEach_results L B lp fsvs w).
  - constructor.
Qed.

(** X5.  The sender calls the filesystem engine only for a path that parses
    and that its filter passes: whenever [ListFilesystemVersions], [Send],
    [DestroySnapshots] or [SnapshotReplicationStatus] makes any call, the
    requested path parsed and the filter answered true for it; the versions
    are listed, and the snapshots destroyed, on that path. *)
Theorem Sender_calls_only_what_the_filter_passed (p : Sender.t) (w : W) :
  (forall fs, trace (Sender.ListFilesystemVersions L B p fs w) <> [] ->
     exists dp, NewDatasetPath L fs = Ok dp /\ Sender.FSFilter p dp = Ok true /\
       trace (Sender.ListFilesystemVersions L B p fs w) = [EvZFSListFilesystemVersions dp]) /\
  (forall r, trace (Sender.Send L B p r w) <> [] ->
     exists dp, NewDatasetPath L (pdu.SendReq.Filesystem r) = Ok dp /\
       Sender.FSFilter p dp = Ok true) /\
  (forall req, trace (Sender.DestroySnapshots L B p req w) <> [] ->
     exists dp, NewDatasetPath L (pdu.DestroySnapshotsReq.Filesystem req) = Ok dp /\
       Sender.FSFilter p dp = Ok true /\
       Forall (destroysOn dp) (trace (Sender.DestroySnapshots L B p req w))) /\
  (forall req, trace (Sender.SnapshotReplicationStatus L B p req w) <> [] ->
     exists dp, NewDatasetPath L (pdu.SnapshotReplicationStatusReq.Filesystem req) = Ok dp /\
       Sender.FSFilter p dp = Ok true).
Proof.
  split; [|split; [|split]].
  - intros fs. unfold Sender.ListFilesystemVersions.
    destruct (NewDatasetPath L fs) as [dp|err]; [|intros H; exfalso; apply H; reflexivity].
    destruct (Sender.FSFilter p dp) as [[|]|err] eqn:Hf; cbn [negb];
      try (intros H; exfalso; apply H; reflexivity).
    intros _. exists dp. split; [reflexivity|]. split; [exact Hf|].
    unfold bind, ZFSListFilesystemVersions, call, ret, trace.
    destruct (run_ZFSListFilesystemVersions B dp _ w) as [[fsvs|err] w1]; reflexivity.
  - intros r. unfold Sender.Send.
    destruct (NewDatasetPath L _) as [dp|err]; [|intros H; exfalso; apply H; reflexivity].
    destruct (Sender.FSFilter p dp) as [[|]|err] eqn:Hf; cbn [negb];
      try (intros H; exfalso; apply H; reflexivity).
    intros _. exists dp. split; [reflexivity|exact Hf].
  - intros req. unfold Sender.DestroySnapshots.
    destruct (NewDatasetPath L _) as [dp|err]; [|intros H; exfalso; apply H; reflexivity].
    destruct (Sender.FSFilter p dp) as [[|]|err] eqn:Hf; cbn [negb];
      try (intros H; exfalso; apply H; reflexivity).
    intros _. exists dp. split; [reflexivity|]. split; [exact Hf|].
    apply doDestroySnapshots_on.
  - intros req. unfold Sender.SnapshotReplicationStatus.
    destruct (NewDatasetPath L _) as [dp|err]; [|intros H; exfalso; apply H; reflexivity].
    destruct (Sender.FSFilter p dp) as [[|]|err] eqn:Hf; cbn [negb];
      try (intros H; exfalso; apply H; reflexivity).
    intros _. exists dp. split; [reflexivity|exact Hf].
Qed.

(** X4.  The receiver calls the filesystem engine only for a path its map
    maps, and then on the mapped path: versions are listed and snapshots
    destroyed on the local path the map gives, and [Receive] probes only the
    local target and its ancestors, creates only ancestors of it, and
    receives into it. *)
Theorem Receiver_acts_on_the_mapped_path (e : Receiver.t T) (w : W) :
  (forall fs, trace (Receiver.ListFilesystemVersions L B e fs w) <> [] ->
     exists p lp, NewDatasetPath L fs = Ok p /\ FSMap.Map (Receiver.fsmap e) p = Ok (Some lp) /\
       trace (Receiver.ListFilesystemVersions L B e fs w) = [EvZFSListFilesystemVersions lp]) /\
  (forall req, trace (Receiver.DestroySnapshots L B e req w) <> [] ->
     exists p lp, NewDatasetPath L (pdu.DestroySnapshotsReq.Filesystem req) = Ok p /\
       FSMap.Map (Receiver.fsmap e) p = Ok (Some lp) /\
       Forall (destroysOn lp) (trace (Receiver.DestroySnapshots L B e req w))) /\
  (forall req s,
     let tr := trace (Receiver.Receive L B e req (Some s) w) in
     (exists ev, In ev tr /\ is_close ev = false) ->
     exists p lp, NewDatasetPath L (pdu.ReceiveReq.Filesystem req) = Ok p /\
       FSMap.Map (Receiver.fsmap e) p = Ok (Some lp) /\
       (forall a, In a (probed tr) -> a = lp \/ In a (ancestors lp)) /\
       (forall a, In a (created tr) -> In a (ancestors lp)) /\
       (forall fs st args res, In (EvZFSRecv fs st args res) tr -> fs = ToString L lp)).
Proof.
  split; [|split].
  - intros fs. unfold Receiver.ListFilesystemVersions.
    destruct (NewDatasetPath L fs) as [p|err]; [|intros H; exfalso; apply H; reflexivity].
    destruct (FSMap.Map (Receiver.fsmap e) p) as [[lp|]|err] eqn:Hf;
      try (intros H; exfalso; apply H; reflexivity).
    intros _. exists p, lp. split; [reflexivity|]. split; [exact Hf|].
    unfold bind, ZFSListFilesystemVersions, call, ret, trace.
    destruct (run_ZFSListFilesystemVersions B lp _ w) as [[fsvs|err] w1]; reflexivity.
  - intros req. unfold Receiver.DestroySnapshots.
    destruct (NewDatasetPath L _) as [p|err]; [|intros H; exfalso; apply H; reflexivity].
    destruct (FSMap.Map (Receiver.fsmap e) p) as [[lp|]|err] eqn:Hf;
      try (intros H; exfalso; apply H; reflexivity).
    intros _. exists p, lp. split; [reflexivity|]. split; [exact Hf|].
    apply doDestroySnapshots_on.
  - intros req s tr (ev & Hin & Hne). subst tr.
    destruct (NewDatasetPath L (pdu.ReceiveReq.Filesystem req)) as [p|err] eqn:Hp.
    2:{ unfold Receiver.Receive, defer in Hin. rewrite Hp in Hin.
        destruct Hin as [<-|[]]. discriminate. }
    destruct (FSMap.Map (Receiver.fsmap e) p) as [[lp|]|err] eqn:Hm.
    2,3: unfold Receiver.Receive, defer in Hin; rewrite Hp, Hm in Hin;
         destruct Hin as [<-|[]]; discriminate.
    exists p, lp. split; [first [reflexivity|exact Hp]|].
    split; [first [reflexivity|exact Hm]|].
    destruct (Receive_cases L B e req s w p lp Hp Hm) as (tr & Hcalls & Hpr & Hcr & Hcase).
    assert (Hnorecv : forall fs st args res, ~ In (EvZFSRecv fs st args res) tr).
    { intros fs st args res H. apply repair_call_not_recv in Hcalls.
      rewrite Forall_forall in Hcalls. apply Hcalls in H. discriminate. }
    destruct Hcase as [(cerr & _ & _ & ->)|(g & _ & ->)];
      rewrite probed_app, created_app; cbn [probed created]; rewrite ?app_nil_r.
    + split; [intros a Ha; right; apply Hpr, Ha|]. split; [exact Hcr|].
      intros fs st args res H. apply in_app_or in H as [H|[H|[]]]; [|discriminate].
      exfalso. exact (Hnorecv _ _ _ _ H).
    + split.
      { intros a Ha. apply in_app_or in Ha as [Ha|[<-|[]]]; [right; apply Hpr, Ha|left].
        reflexivity. }
      split; [exact Hcr|].
      intros fs st args res H. apply in_app_or in H as [H|[H|[H|[H|[]]]]]; try discriminate.
      * exfalso. exact (Hnorecv _ _ _ _ H).
      * injection H as <- _ _ _. reflexivity.
Qed.

End Guards.

(** ** Rejections, sending, status and listing *)

Section EndpointExtras.
Context {W T : Type} {FSMapT : FSMap.t T} (L : Lib) (B : Backend W).

(** X6.  For a path the receiver's map does not map, [ListFilesystemVersions]
    and [DestroySnapshots] fail with "access to filesystem denied" and
    [Receive] with "receive to filesystem denied", without a call to the
    filesystem engine; [Receive] still closes its stream. *)
Theorem Receiver_denies_unmapped (e : Receiver.t T) (fs : string) (p : zfs.DatasetPath) (w : W) :
  NewDatasetPath L fs = Ok p ->
  FSMap.Map (Receiver.fsmap e) p = Ok None ->
  Receiver.ListFilesystemVersions L B e fs w
  = (Err (errorString "access to filesystem denied"), w, []) /\
  (forall snaps,
     Receiver.DestroySnapshots L B e
       {| pdu.DestroySnapshotsReq.Filesystem := fs;
          pdu.DestroySnapshotsReq.Snapshots := snaps |} w
     = (Err (errorString "access to filesystem denied"), w, [])) /\
  (forall s,
     Receiver.Receive L B e {| pdu.ReceiveReq.Filesystem := fs |} (Some s) w
     = (Some (errorString "receive to filesystem denied"), w, [EvClose s])).
Proof.
  intros Hp Hm. split; [|split].
  - unfold Receiver.ListFilesystemVersions. rewrite Hp, Hm. reflexivity.
  - intros snaps. unfold Receiver.DestroySnapshots. cbn [pdu.DestroySnapshotsReq.Filesystem].
    rewrite Hp, Hm. reflexivity.
  - intros s. unfold Receiver.Receive, defer. cbn [pdu.ReceiveReq.Filesystem].
    rewrite Hp, Hm. reflexivity.
Qed.

(** X7.  A filesystem name that does not parse is rejected by every method of
    the sender and of the receiver with the error of the parser as it is:
    the policy is not consulted and the filesystem engine not called;
    [Receive] still closes its stream. *)
Theorem malformed_path_rejected (fs : string) (err : error) (w : W) :
  NewDatasetPath L fs = Err err ->
  (forall p : Sender.t,
     Sender.ListFilesystemVersions L B p fs w = (Err err, w, []) /\
     (forall from_ to_,
        Sender.Send L B p
          {| pdu.SendReq.Filesystem := fs; pdu.SendReq.From := from_; pdu.SendReq.To := to_ |} w
        = (Err err, w, [])) /\
     (forall snaps,
        Sender.DestroySnapshots L B p
          {| pdu.DestroySnapshotsReq.Filesystem := fs;
             pdu.DestroySnapshotsReq.Snapshots := snaps |} w
        = (Err err, w, [])) /\
     (forall snap op,
        Sender.SnapshotReplicationStatus L B p
          {| pdu.SnapshotReplicationStatusReq.Filesystem := fs;
             pdu.SnapshotReplicationStatusReq.Snapshot := snap;
             pdu.SnapshotReplicationStatusReq.Op := op |} w
        = (Err err, w, []))) /\
  (forall e : Receiver.t T,
     Receiver.ListFilesystemVersions L B e fs w = (Err err, w, []) /\
     (forall snaps,
        Receiver.DestroySnapshots L B e
          {| pdu.DestroySnapshotsReq.Filesystem := fs;
             pdu.DestroySnapshotsReq.Snapshots := snaps |} w
        = (Err err, w, [])) /\
     (forall s,
        Receiver.Receive L B e {| pdu.ReceiveReq.Filesystem := fs |} (Some s) w
        = (Some err, w, [EvClose s]))).
Proof.
  intros Hp. split.
  - intros p. repeat split; intros.
    + unfold Sender.ListFilesystemVersions. rewrite Hp. reflexivity.
    + unfold Sender.Send. cbn [pdu.SendReq.Filesystem]. rewrite Hp. reflexivity.
    + unfold Sender.DestroySnapshots. cbn [pdu.DestroySnapshotsReq.Filesystem].
      rewrite Hp. reflexivity.
    + unfold Sender.SnapshotReplicationStatus.
      cbn [pdu.SnapshotReplicationStatusReq.Filesystem]. rewrite Hp. reflexivity.
  - intros e. repeat split; intros.
    + unfold Receiver.ListFilesystemVersions. rewrite Hp. reflexivity.
    + unfold Receiver.DestroySnapshots. cbn [pdu.DestroySnapshotsReq.Filesystem].
      rewrite Hp. reflexivity.
    + unfold Receiver.Receive, defer. cbn [pdu.ReceiveReq.Filesystem]. rewrite Hp. reflexivity.
Qed.

(** X8.  [Send] on the sender sizes the stream by a dry run before it opens
    it, both with the filesystem and the bounds of the request: the stream is
    opened only after the dry run succeeded, and a successful [Send] made
    exactly these two calls and returns the size of the dry run with the
    stream the engine opened. *)
Theorem Send_sizes_before_streaming (p : Sender.t) (r : pdu.SendReq.t) (w : W) :
  let fs := pdu.SendReq.Filesystem r in
  let from_ := pdu.SendReq.From r in
  let to_ := pdu.SendReq.To r in
  let run := Sender.Send L B p r w in
  let dry := run_ZFSSendDry B fs from_ to_ w in
  (trace run = [] \/ trace run = [EvZFSSendDry fs from_ to_] \/
   trace run = [EvZFSSendDry fs from_ to_; EvZFSSend fs from_ to_]) /\
  (In (EvZFSSend fs from_ to_) (trace run) -> exists size, fst dry = Ok size) /\
  (forall res stream,
     value run = Ok (res, stream) ->
     trace run = [EvZFSSendDry fs from_ to_; EvZFSSend fs from_ to_] /\
     fst dry = Ok (pdu.SendRes.ExpectedSize res) /\
     fst (run_ZFSSend B fs from_ to_ (snd dry)) = Ok stream /\
     world run = snd (run_ZFSSend B fs from_ to_ (snd dry))).
Proof.
  intros fs from_ to_ run dry. subst run dry. unfold Sender.Send. fold fs from_ to_.
  assert (Hnone : forall (e : error) (w0 : W),
            let run : result (pdu.SendRes.t * ReadCloser) * W * list Event := (Err e, w0, []) in
            (trace run = [] \/ trace run = [EvZFSSendDry fs from_ to_] \/
             trace run = [EvZFSSendDry fs from_ to_; EvZFSSend fs from_ to_]) /\
            (In (EvZFSSend fs from_ to_) (trace run) ->
             exists size, fst (run_ZFSSendDry B fs from_ to_ w) = Ok size) /\
            (forall res stream,
               value run = Ok (res, stream) ->
               trace run = [EvZFSSendDry fs from_ to_; EvZFSSend fs from_ to_] /\
               fst (run_ZFSSendDry B fs from_ to_ w) = Ok (pdu.SendRes.ExpectedSize res) /\
               fst (run_ZFSSend B fs from_ to_ (snd (run_ZFSSendDry B fs from_ to_ w)))
               = Ok stream /\
               world run = snd (run_ZFSSend B fs from_ to_
                                  (snd (run_ZFSSendDry B fs from_ to_ w))))).
  { intros e w0 run. subst run. cbn. split; [auto|]. split; [tauto|discriminate]. }
  destruct (NewDatasetPath L fs) as [dp|err]; [|apply Hnone].
  destruct (Sender.FSFilter p dp) as [[|]|err]; cbn [negb]; [|apply Hnone..].
  clear Hnone.
  unfold bind, ZFSSendDry, ZFSSend, call, ret, value, world, trace.
  destruct (run_ZFSSendDry B fs from_ to_ w) as [[size|err] w1]; cbn [fst snd].
  - destruct (run_ZFSSend B fs from_ to_ w1) as [[stream|err] w2]; cbn [fst snd app].
    + split; [auto|]. split; [eauto|].
      intros res stream' E. injection E as <- <-. repeat split.
    + split; [auto|]. split; [eauto|]. discriminate.
  - cbn [app]. split; [auto|]. split; [|discriminate].
    intros [H|[]]. discriminate.
Qed.

(** X9.  [SnapshotReplicationStatus] makes at most one call.  It writes the
    replicated property only for the opcode SetReplicated and only with the
    value true, and then answers true; it reads it only for the opcode Get.
    Both calls go to the filesystem the request names, which parsed and
    passed the filter, and to the snapshot the request names; and for a
    filesystem that passes, the call is made: the one write, or the one read
    whose answer is returned.  An unknown opcode fails without any call. *)
Theorem SnapshotReplicationStatus_calls (p : Sender.t)
  (req : pdu.SnapshotReplicationStatusReq.t) (w : W) :
  let run := Sender.SnapshotReplicationStatus L B p req w in
  let op := pdu.SnapshotReplicationStatusReq.Op req in
  let passes (dp : zfs.DatasetPath) :=
    NewDatasetPath L (pdu.SnapshotReplicationStatusReq.Filesystem req) = Ok dp /\
    Sender.FSFilter p dp = Ok true in
  let named (v : zfs.FilesystemVersion) :=
    zfs.Type' v = zfs.Snapshot /\
    zfs.Name v = pdu.SnapshotReplicationStatusReq.Snapshot req in
  (length (trace run) <= 1)%nat /\
  (forall fs v replicated,
     In (EvZFSSetReplicatedProperty fs v replicated) (trace run) ->
     replicated = true /\
     op = pdu.SnapshotReplicationStatusReq_SetReplicated /\ passes fs /\ named v) /\
  (forall fs v,
     In (EvZFSGetReplicatedProperty fs v) (trace run) ->
     op = pdu.SnapshotReplicationStatusReq_Get /\ passes fs /\ named v) /\
  (forall dp,
     passes dp ->
     (op = pdu.SnapshotReplicationStatusReq_SetReplicated ->
      exists v, named v /\ trace run = [EvZFSSetReplicatedProperty dp v true] /\
        world run = snd (run_ZFSSetReplicatedProperty B dp v true w) /\
        value run =
        match fst (run_ZFSSetReplicatedProperty B dp v true w) with
        | Some err => Err err
        | None => Ok {| pdu.SnapshotReplicationStatusRes.Replicated := true |}
        end) /\
     (op = pdu.SnapshotReplicationStatusReq_Get ->
      exists v, named v /\ trace run = [EvZFSGetReplicatedProperty dp v] /\
        world run = snd (run_ZFSGetReplicatedProperty B dp v w) /\
        value run =
        match fst (run_ZFSGetReplicatedProperty B dp v w) with
        | Err err => Err err
        | Ok replicated =>
          Ok {| pdu.SnapshotReplicationStatusRes.Replicated := replicated |}
        end)) /\
  (forall code,
     op = pdu.SnapshotReplicationStatusReq_Unknown code ->
     trace run = [] /\ world run = w /\ exists err, value run = Err err) /\
  (forall res,
     value run = Ok res ->
     op = pdu.SnapshotReplicationStatusReq_SetReplicated ->
     pdu.SnapshotReplicationStatusRes.Replicated res = true).
Proof.
  intros run op passes named. subst run op passes named.
  unfold Sender.SnapshotReplicationStatus.
  destruct (NewDatasetPath L _) as [dp|err] eqn:Hdp.
  2:{ cbn. split; [lia|]. split; [intros ? ? ? []|]. split; [intros ? ? []|].
      split; [intros dp [E _]; discriminate|]. split; [eauto|discriminate]. }
  destruct (Sender.FSFilter p dp) as [[|]|err] eqn:Hf; cbn [negb].
  2,3: cbn; (split; [lia|]); (split; [intros ? ? ? []|]); (split; [intros ? ? []|]);
       (split; [intros dp' [E E']; injection E as <-; congruence|]);
       (split; [eauto|discriminate]).
  destruct (pdu.SnapshotReplicationStatusReq.Op req) as [| |code] eqn:Hop.
  - unfold bind, ZFSGetReplicatedProperty, call, ret, value, world, trace.
    destruct (run_ZFSGetReplicatedProperty B dp _ w) as [[b|err] w1] eqn:Hg;
      cbn [fst snd app].
    all: split; [cbn; lia|].
    all: split; [intros fs v b' [H|[]]; discriminate|].
    all: split; [intros fs v [H|[]]; injection H as <- <-; repeat split; assumption|].
    all: split; [|split; [discriminate|intros res _ H; discriminate]].
    all: intros dp' [E _]; injection E as <-; split; [discriminate|]; intros _.
    all: eexists; (split; [|split; [reflexivity|rewrite Hg; split; reflexivity]]).
    all: split; reflexivity.
  - unfold bind, ZFSSetReplicatedProperty, call, ret, value, world, trace.
    destruct (run_ZFSSetReplicatedProperty B dp _ true w) as [[err|] w1] eqn:Hs;
      cbn [fst snd app].
    + split; [cbn; lia|].
      split; [intros fs v b [H|[]]; injection H as <- <- <-; repeat split; assumption|].
      split; [intros fs v [H|[]]; discriminate|].
      split.
      { intros dp' [E _]. injection E as <-. split; [|discriminate]. intros _.
        eexists. split; [|split; [reflexivity|rewrite Hs; split; reflexivity]].
        split; reflexivity. }
      split; [discriminate|discriminate].
    + split; [cbn; lia|].
      split; [intros fs v b [H|[]]; injection H as <- <- <-; repeat split; assumption|].
      split; [intros fs v [H|[]]; discriminate|].
      split.
      { intros dp' [E _]. injection E as <-. split; [|discriminate]. intros _.
        eexists. split; [|split; [reflexivity|rewrite Hs; split; reflexivity]].
        split; reflexivity. }
      split; [discriminate|]. intros res E _. injection E as <-. reflexivity.
  - cbn. split; [lia|]. split; [intros ? ? ? []|]. split; [intros ? ? []|].
    split; [intros dp' _; split; discriminate|]. split; [eauto|discriminate].
Qed.
(** *** Batch destruction *)

Lemma destroyEach_in_order (lp : zfs.DatasetPath) (fsvs : list zfs.FilesystemVersion) :
  forall w : W,
  let r := destroyEach L B lp fsvs w in
  Forall2 (reports L lp) (trace r) (value r) /\
  Forall2 (fun ev v => exists err, ev = EvZFSDestroyFilesystemVersion lp v err) (trace r) fsvs.
Proof.
  induction fsvs as [|fsv rest IH]; intros w r; subst r.
  - cbn. split; constructor.
  - rewrite destroyEach_cons. cbn [value world trace fst snd].
    destruct (IH (snd (run_ZFSDestroyFilesystemVersion B lp fsv w))) as [IH1 IH2].
    split; constructor; try assumption.
    + eexists _, _. repeat split.
    + eexists. reflexivity.
Qed.

Lemma convertSnaps_each (snaps : list pdu.FilesystemVersion.t) :
  forall fsvs, convertSnaps L snaps = Ok fsvs ->
  Forall2 (fun snap v =>
             pdu.FilesystemVersion.Type' snap = pdu.FilesystemVersion_Snapshot /\
             ZFSFilesystemVersion L snap = Ok v) snaps fsvs.
Proof.
  induction snaps as [|snap snaps IH]; intros fsvs; cbn [convertSnaps].
  - intros E. injection E as <-. constructor.
  - destruct (pdu.FilesystemVersion.Type' snap) eqn:Ht; [|discriminate].
    destruct (ZFSFilesystemVersion L snap) as [v|err] eqn:Hc; [|discriminate].
    destruct (convertSnaps L snaps) as [vs|err]; [|discriminate].
    intros E. injection E as <-. constructor; [split; assumption|apply IH; reflexivity].
Qed.

(** X10.  A batch destruction that succeeds has destroyed in the order of the
    request, one call per requested item on the given filesystem, going on
    after a failed destroy; the i-th result reports the i-th call: its
    snapshot and the text of its error, empty when there was none. *)
Theorem doDestroySnapshots_in_request_order (lp : zfs.DatasetPath)
  (snaps : list pdu.FilesystemVersion.t) (w : W) (res : pdu.DestroySnapshotsRes.t) :
  let r := doDestroySnapshots L B lp snaps w in
  value r = Ok res ->
  Forall2 (destroys L lp) (trace r) snaps /\
  Forall2 (reports L lp) (trace r) (pdu.DestroySnapshotsRes.Results res).
Proof.
  intros r Hv. subst r. unfold doDestroySnapshots in *.
  destruct (convertSnaps L snaps) as [fsvs|err] eqn:Hc; [|discriminate].
  rewrite bind_run in *. cbn [ret value world trace fst snd] in *. rewrite app_nil_r.
  injection Hv as <-. cbn [pdu.DestroySnapshotsRes.Results].
  destruct (destroyEach_in_order lp fsvs w) as [H1 H2].
  split; [|exact H1].
  pose proof (convertSnaps_each snaps fsvs Hc) as H3.
  clear Hc H1. revert H2. generalize (trace (destroyEach L B lp fsvs w)). intros tr H2.
  revert tr H2. induction H3 as [|snap v snaps fsvs [_ Hsv] _ IH]; intros tr H2.
  - inversion H2. constructor.
  - inversion H2 as [|ev v' tr' fsvs' [err ->] Hrest]; subst.
    constructor; [eexists _, _; split; [reflexivity|exact Hsv]|apply IH, Hrest].
Qed.

(** X11.  The error of a rejected batch is that of its first offending item:
    after items that are snapshots and convert, an item that is no snapshot
    gives the error naming it, and a snapshot that does not convert gives the
    error of its conversion; nothing is destroyed. *)
Theorem doDestroySnapshots_first_offender (lp : zfs.DatasetPath)
  (good : list pdu.FilesystemVersion.t) (bad : pdu.FilesystemVersion.t)
  (rest : list pdu.FilesystemVersion.t) (w : W) :
  (forall fsv, In fsv good ->
     pdu.FilesystemVersion.Type' fsv = pdu.FilesystemVersion_Snapshot /\
     exists v, ZFSFilesystemVersion L fsv = Ok v) ->
  let r := doDestroySnapshots L B lp (good ++ bad :: rest) w in
  (pdu.FilesystemVersion.Type' bad <> pdu.FilesystemVersion_Snapshot ->
   r = (Err (Errorf "version %q is not a snapshot" [pdu.FilesystemVersion.Name bad]), w, [])) /\
  (forall err,
     pdu.FilesystemVersion.Type' bad = pdu.FilesystemVersion_Snapshot ->
     ZFSFilesystemVersion L bad = Err err ->
     r = (Err err, w, [])).
Proof.
  intros Hgood r. subst r. unfold doDestroySnapshots.
  assert (Hconv : forall e,
            convertSnaps L (bad :: rest) = Err e -> convertSnaps L (good ++ bad :: rest) = Err e).
  { intros e He. induction good as [|g good IH]; [exact He|].
    cbn [app convertSnaps].
    destruct (Hgood g (or_introl eq_refl)) as (-> & v & ->).
    rewrite IH; [reflexivity|]. intros x Hx. apply Hgood. right. exact Hx. }
  split.
  - intros Hbad. rewrite (Hconv (Errorf "version %q is not a snapshot"
                                   [pdu.FilesystemVersion.Name bad])); [reflexivity|].
    cbn [convertSnaps]. destruct (pdu.FilesystemVersion.Type' bad); [congruence|reflexivity].
  - intros err Ht Hc. rewrite (Hconv err); [reflexivity|].
    cbn [convertSnaps]. rewrite Ht, Hc. reflexivity.
Qed.

(** *** Listing on the receiver *)

Lemma mapBack_each (inv : T) (filtered : list zfs.DatasetPath) :
  forall fss, Receiver.mapBack L inv filtered = Ok fss ->
  Forall2 (fun a fs => exists mapped,
             FSMap.Map inv a = Ok (Some mapped) /\
             pdu.Filesystem.Path fs = ToString L mapped) filtered fss.
Proof.
  induction filtered as [|a rest IH]; intros fss; cbn [Receiver.mapBack].
  - intros E. injection E as <-. constructor.
  - destruct (FSMap.Map inv a) as [[mapped|]|err] eqn:Hm; try discriminate.
    destruct (Receiver.mapBack L inv rest) as [fss'|err]; [|discriminate].
    intros E. injection E as <-. constructor; [|apply IH; reflexivity].
    exists mapped. split; [exact Hm|reflexivity].
Qed.

Lemma mapBack_all (inv : T) (filtered : list zfs.DatasetPath) :
  Forall (fun a => exists mapped, FSMap.Map inv a = Ok (Some mapped)) filtered ->
  exists fss, Receiver.mapBack L inv filtered = Ok fss.
Proof.
  induction 1 as [|a rest [mapped Hm] _ [fss IH]]; cbn [Receiver.mapBack].
  - eexists. reflexivity.
  - rewrite Hm, IH. eexists. reflexivity.
Qed.

(** X12.  [ListFilesystems] on the receiver makes the one listing call with
    the filter of the inverse map.  A failed listing is reported wrapped as
    "error checking client permission".  Otherwise the call succeeds exactly
    when the inverse map maps every listed filesystem, and it then advertises
    one filesystem per listed one, in order, under the name the inverse map
    gives it. *)
Theorem Receiver_ListFilesystems_advertises_remote_names (e : Receiver.t T) (w : W) :
  let run := Receiver.ListFilesystems L B e w in
  let listing := run_ZFSListMapping B (FSMap.AsFilter (Receiver.fsmapInv e)) w in
  trace run = [EvZFSListMapping] /\
  world run = snd listing /\
  (forall err,
     fst listing = Err err ->
     value run = Err (withMessage err "error checking client permission")) /\
  (forall filtered,
     fst listing = Ok filtered ->
     ((exists fss, value run = Ok fss) <->
      Forall (fun a => exists mapped, FSMap.Map (Receiver.fsmapInv e) a = Ok (Some mapped))
             filtered) /\
     (forall fss,
        value run = Ok fss ->
        Forall2 (fun a fs => exists mapped,
                   FSMap.Map (Receiver.fsmapInv e) a = Ok (Some mapped) /\
                   pdu.Filesystem.Path fs = ToString L mapped) filtered fss)).
Proof.
  intros run listing. subst run listing. unfold Receiver.ListFilesystems.
  rewrite bind_run. unfold ZFSListMapping. rewrite call_run.
  cbn [value world trace fst snd].
  destruct (run_ZFSListMapping B _ w) as [[filtered|err] w1]; cbn [fst snd ret value world trace app].
  - split; [reflexivity|]. split; [reflexivity|]. split; [discriminate|].
    intros filtered' E. injection E as <-. split.
    + split.
      * intros [fss Hfss]. apply mapBack_each in Hfss.
        induction Hfss as [|a fs l l' (mapped & Hm & _) _ IH]; constructor; eauto.
      * apply mapBack_all.
    + apply mapBack_each.
  - split; [reflexivity|]. split; [reflexivity|]. split; [congruence|discriminate].
Qed.

End EndpointExtras.

(** ** The dispatcher *)

Section HandlerExtras.
Context {W : Type} {codec : Codec}.

Ltac known_name :=
  cbn [String.eqb RPCSend RPCSnapshotReplicationStatus RPCListFilesystems
       RPCListFilesystemVersions RPCReceive RPCSDestroySnapshots Ascii.eqb Bool.eqb].

(** X13.  For every call name but [Receive] the dispatcher does not look at
    the stream of the request: it is neither passed on nor closed, and the
    answer is the same with and without it. *)
Theorem Handle_ignores_request_stream (a : Handler.t W) (endpoint : string) (b : bytes)
  (st1 st2 : ReadCloser) (w : W) :
  endpoint <> RPCReceive ->
  Handler.Handle a endpoint b st1 w = Handler.Handle a endpoint b st2 w.
Proof.
  intros Hne. unfold Handler.Handle.
  destruct (String.eqb_spec endpoint RPCReceive) as [E|_]; [contradiction|].
  reflexivity.
Qed.

(** X14.  When the structured request does not decode, the dispatcher
    answers with the error of the decoder and does not invoke the endpoint,
    for each of the six calls. *)
Theorem Handle_undecodable_request (a : Handler.t W) (b : bytes) (st : ReadCloser) (w : W)
  (err : error) :
  (proto.Unmarshal (A := pdu.ListFilesystemReq.t) b = Err err ->
   Handler.Handle a RPCListFilesystems b st w = (Err err, w, [])) /\
  (proto.Unmarshal (A := pdu.ListFilesystemVersionsReq.t) b = Err err ->
   Handler.Handle a RPCListFilesystemVersions b st w = (Err err, w, [])) /\
  (proto.Unmarshal (A := pdu.DestroySnapshotsReq.t) b = Err err ->
   Handler.Handle a RPCSDestroySnapshots b st w = (Err err, w, [])) /\
  (forall sender,
     replication.asSender (Handler.ep a) = Some sender ->
     (proto.Unmarshal (A := pdu.SendReq.t) b = Err err ->
      Handler.Handle a RPCSend b st w = (Err err, w, [])) /\
     (proto.Unmarshal (A := pdu.SnapshotReplicationStatusReq.t) b = Err err ->
      Handler.Handle a RPCSnapshotReplicationStatus b st w = (Err err, w, []))) /\
  (forall receiver,
     replication.asReceiver (Handler.ep a) = Some receiver ->
     proto.Unmarshal (A := pdu.ReceiveReq.t) b = Err err ->
     Handler.Handle a RPCReceive b st w = (Err err, w, [])).
Proof.
  unfold Handler.Handle. known_name.
  split; [intros ->; reflexivity|]. split; [intros ->; reflexivity|].
  split; [intros ->; reflexivity|]. split.
  - intros sender ->. split; intros ->; reflexivity.
  - intros receiver -> ->. reflexivity.
Qed.

Lemma value_bind {A B : Type} (m : M W A) (f : A -> M W B) (w : W) :
  value (bind m f w) = value (f (value (m w)) (world (m w))).
Proof. rewrite bind_run. reflexivity. Qed.

(** X15.  The dispatcher answers with a stream only for [Send]: a response
    that carries a stream comes from a sender whose [Send], on the decoded
    request, returned that stream, together with its encoded result. *)
Theorem Handle_streams_only_for_Send (a : Handler.t W) (endpoint : string) (b : bytes)
  (st : ReadCloser) (w : W) (rb : bytes) (rs : Stream) :
  value (Handler.Handle a endpoint b st w) = Ok (rb, Some rs) ->
  endpoint = RPCSend /\
  exists sender req res,
    replication.asSender (Handler.ep a) = Some sender /\
    proto.Unmarshal b = Ok req /\
    value (replication.Send sender req w) = Ok (res, Some rs) /\
    proto.Marshal res = Ok rb.
Proof.
  unfold Handler.Handle.
  repeat match goal with
  | |- context [String.eqb endpoint ?n] => destruct (String.eqb_spec endpoint n)
  end; subst;
  unfold Handler.noHandler;
  repeat match goal with
  | |- value (match ?x with _ => _ end _) = _ -> _ => destruct x eqn:?
  | |- value (bind _ _ _) = _ -> _ => rewrite value_bind
  | |- value (let (_, _) := ?x in _) = _ -> _ => destruct x eqn:?
  | |- value ((let (_, _) := ?x in _) _) = _ -> _ => destruct x eqn:?
  end;
  try (cbn; discriminate).
  cbn [ret value fst]. intros E. injection E as <- ->.
  split; [reflexivity|]. eexists _, _, _. repeat split; eassumption.
Qed.

End HandlerExtras.

(** ** The client stub *)

Section RemoteExtras.
Context {C : Type} {codec : Codec} (c : streamrpc.Client C).

Ltac stub :=
  unfold Remote.ListFilesystems, Remote.ListFilesystemVersions, Remote.Send,
         Remote.DestroySnapshots, Remote.Receive, defer, streamrpc.RequestReply,
         bind, call, ret, Close, value, world, trace; cbn zeta.

Ltac stub_cases :=
  repeat match goal with
  | |- context [match proto.Marshal ?x with _ => _ end] => destruct (proto.Marshal x)
  | |- context [streamrpc.run_RequestReply c ?n ?b ?s ?t] =>
    destruct (streamrpc.run_RequestReply c n b s t) as [[[? [?|]]|?] ?]
  | |- context [match proto.Unmarshal ?x with _ => _ end] => destruct (proto.Unmarshal x)
  end; cbn [fst snd app List.filter is_request is_close length].

(** X16.  Every stub issues at most one request per call, whatever the
    outcome. *)
Theorem Remote_requests_at_most_once (t : C) :
  (length (List.filter is_request (trace (Remote.ListFilesystems c t))) <= 1)%nat /\
  (forall fs,
     length (List.filter is_request (trace (Remote.ListFilesystemVersions c fs t))) <= 1)%nat /\
  (forall r, length (List.filter is_request (trace (Remote.Send c r t))) <= 1)%nat /\
  (forall r, length (List.filter is_request (trace (Remote.DestroySnapshots c r t))) <= 1)%nat /\
  (forall r st, length (List.filter is_request (trace (Remote.Receive c r st t))) <= 1)%nat.
Proof.
  repeat split; intros; try destruct st; stub; stub_cases; lia.
Qed.

(** X17.  [Send] on the stub accounts for the stream of the response: a
    successful [Send] always hands a stream to the caller and has closed
    nothing; when a response arrives with a stream, either that stream is
    handed over open or the call fails and has closed it, once. *)
Theorem Remote_Send_accounts_for_stream (r : pdu.SendReq.t) (t : C) :
  let run := Remote.Send c r t in
  (forall res st,
     value run = Ok (res, st) ->
     (exists rs, st = Some rs) /\ List.filter is_close (trace run) = []) /\
  (forall b rb rs t',
     proto.Marshal r = Ok b ->
     streamrpc.run_RequestReply c RPCSend b None t = (Ok (rb, Some rs), t') ->
     (exists res, value run = Ok (res, Some rs) /\ List.filter is_close (trace run) = []) \/
     (exists err, value run = Err err /\ List.filter is_close (trace run) = [EvClose rs])).
Proof.
  intros run. subst run. split.
  - intros res st. stub. stub_cases; intros E; try discriminate.
    injection E as _ <-. split; [eauto|reflexivity].
  - intros b rb rs t' Hb Hr. stub. rewrite Hb, Hr.
    destruct (proto.Unmarshal rb) as [res|err]; cbn; eauto.
Qed.

(** X18.  [Receive] on the stub closes the stream it was given as its last
    call on every exit path, also when the request cannot be encoded and
    nothing is sent; a request it issues is a [Receive] that carries the
    encoded request and that stream. *)
Theorem Remote_Receive_closes_stream_last (r : pdu.ReceiveReq.t) (s : Stream) (t : C) :
  let run := Remote.Receive c r (Some s) t in
  (exists pre, trace run = pre ++ [EvClose s]) /\
  (forall endpoint b st,
     In (EvRequestReply endpoint b st) (trace run) ->
     endpoint = RPCReceive /\ proto.Marshal r = Ok b /\ st = Some s) /\
  (forall err, proto.Marshal r = Err err -> run = (Some err, t, [EvClose s])).
Proof.
  intros run. subst run. split; [|split].
  - stub. stub_cases.
    all: try (exists []; reflexivity).
    all: try (eexists [_]; reflexivity).
    all: eexists [_; _]; reflexivity.
  - intros endpoint b st. stub. destruct (proto.Marshal r) as [b'|err] eqn:Hb.
    + destruct (streamrpc.run_RequestReply c RPCReceive b' (Some s) t) as [[[rb [rs|]]|err] t'];
        try destruct (proto.Unmarshal rb); cbn.
      all: intros H; repeat (destruct H as [H|H]); try discriminate; try contradiction.
      all: injection H as <- <- <-; repeat split.
    + cbn. intros [H|[]]. discriminate.
  - intros err Hb. stub. rewrite Hb. reflexivity.
Qed.

End RemoteExtras.

Section RoundTrip.
Context {W : Type} {codec : Codec}.

Ltac known_name :=
  cbn [String.eqb RPCSend RPCSnapshotReplicationStatus RPCListFilesystems
       RPCListFilesystemVersions RPCReceive RPCSDestroySnapshots Ascii.eqb Bool.eqb].

Ltac lawful H x :=
  let b := fresh "b" in let Hm := fresh "Hm" in let Hu := fresh "Hu" in
  destruct (H x) as (b & Hm & Hu); rewrite ?Hm, ?Hu.

(** X19.  Stub and dispatcher agree on the protocol.  With a codec that
    decodes what it encodes, and the requests of the stub handed to a
    dispatcher, each call of the stub returns the value and leaves the world
    that the method of the bound endpoint does.  The exceptions are a [Send]
    whose endpoint returns no stream, which the stub reports as "response
    does not contain a stream", and a [Send] or [Receive] to an endpoint
    without the capability, which is answered "no handler for given
    endpoint". *)
Theorem wire_round_trip (a : Handler.t W) (w : W) :
  LawfulCodec codec ->
  let c := loopback a in
  answer (Remote.ListFilesystems c w) = answer (replication.ListFilesystems (Handler.ep a) w) /\
  (forall fs,
     answer (Remote.ListFilesystemVersions c fs w)
     = answer (replication.ListFilesystemVersions (Handler.ep a) fs w)) /\
  (forall req,
     answer (Remote.DestroySnapshots c req w)
     = answer (replication.DestroySnapshots (Handler.ep a) req w)) /\
  (forall req,
     match replication.asSender (Handler.ep a) with
     | None =>
       answer (Remote.Send c req w) = (Err (errorString "no handler for given endpoint"), w)
     | Some sender =>
       let run := replication.Send sender req w in
       answer (Remote.Send c req w) =
       match value run with
       | Ok (res, None) => (Err (errorString "response does not contain a stream"), world run)
       | _ => answer run
       end
     end) /\
  (forall req s,
     match replication.asReceiver (Handler.ep a) with
     | None =>
       answer (Remote.Receive c req (Some s) w)
       = (Some (errorString "no handler for given endpoint"), w)
     | Some receiver =>
       answer (Remote.Receive c req (Some s) w)
       = answer (replication.Receive receiver req (Some s) w)
     end).
Proof.
  intros (L1 & L2 & L3 & L4 & L5 & L6 & L7 & L8 & L9 & L10 & _ & _) c. subst c.
  split; [|split; [|split; [|split]]].
  - unfold Remote.ListFilesystems. cbn zeta.
    destruct (L1 pdu.ListFilesystemReq.Build_t) as (b & Hm & Hu). rewrite Hm.
    unfold streamrpc.RequestReply, loopback, bind, call, answer. cbn [streamrpc.run_RequestReply].
    unfold Handler.Handle. known_name. rewrite Hu. unfold bind.
    destruct (replication.ListFilesystems (Handler.ep a) w) as [[[fsses|err] w1] t1]; cbn [fst snd].
    + destruct (L2 {| pdu.ListFilesystemRes.Filesystems := fsses |}) as (rb & Hm2 & Hu2).
      rewrite Hm2. cbn [ret fst snd]. rewrite Hu2. reflexivity.
    + reflexivity.
  - intros fs. unfold Remote.ListFilesystemVersions. cbn zeta.
    destruct (L3 {| pdu.ListFilesystemVersionsReq.Filesystem := fs |}) as (b & Hm & Hu).
    rewrite Hm.
    unfold streamrpc.RequestReply, loopback, bind, call, answer. cbn [streamrpc.run_RequestReply].
    unfold Handler.Handle. known_name. rewrite Hu. unfold bind.
    cbn [pdu.ListFilesystemVersionsReq.Filesystem].
    destruct (replication.ListFilesystemVersions (Handler.ep a) fs w)
      as [[[fsvs|err] w1] t1]; cbn [fst snd].
    + destruct (L4 {| pdu.ListFilesystemVersionsRes.Versions := fsvs |}) as (rb & Hm2 & Hu2).
      rewrite Hm2. cbn [ret fst snd]. rewrite Hu2. reflexivity.
    + reflexivity.
  - intros req. unfold Remote.DestroySnapshots.
    destruct (L9 req) as (b & Hm & Hu). rewrite Hm.
    unfold streamrpc.RequestReply, loopback, bind, call, answer. cbn [streamrpc.run_RequestReply].
    unfold Handler.Handle. known_name. rewrite Hu. unfold bind.
    destruct (replication.DestroySnapshots (Handler.ep a) req w)
      as [[[res|err] w1] t1]; cbn [fst snd].
    + destruct (L10 res) as (rb & Hm2 & Hu2).
      rewrite Hm2. cbn [ret fst snd]. rewrite Hu2. reflexivity.
    + reflexivity.
  - intros req. unfold Remote.Send.
    destruct (L5 req) as (b & Hm & Hu). rewrite Hm.
    unfold streamrpc.RequestReply, loopback, bind, call, answer. cbn [streamrpc.run_RequestReply].
    unfold Handler.Handle. known_name.
    destruct (replication.asSender (Handler.ep a)) as [sender|]; [|reflexivity].
    rewrite Hu. unfold bind, value, world.
    destruct (replication.Send sender req w) as [[[[res [rs|]]|err] w1] t1]; cbn [fst snd].
    + destruct (L6 res) as (rb & Hm2 & Hu2).
      rewrite Hm2. cbn [ret fst snd]. rewrite Hu2. reflexivity.
    + destruct (L6 res) as (rb & Hm2 & Hu2).
      rewrite Hm2. cbn [ret fst snd]. reflexivity.
    + reflexivity.
  - intros req s. unfold Remote.Receive, defer.
    destruct (L7 req) as (b & Hm & Hu). rewrite Hm.
    unfold streamrpc.RequestReply, loopback, bind, call, answer. cbn [streamrpc.run_RequestReply].
    unfold Handler.Handle. known_name.
    destruct (replication.asReceiver (Handler.ep a)) as [receiver|]; [|reflexivity].
    rewrite Hu. unfold bind.
    destruct (replication.Receive receiver req (Some s) w) as [[[err|] w1] t1]; cbn [fst snd].
    + reflexivity.
    + destruct (L8 pdu.ReceiveRes.Build_t) as (rb & Hm2 & Hu2).
      rewrite Hm2. cbn [ret fst snd Close]. rewrite Hu2. reflexivity.
Qed.

End RoundTrip.

(** ** The round-tripping codec *)

Lemma bytesToPos_posToBytes (p : positive) : wire.bytesToPos (wire.posToBytes p) = p.
Proof. induction p as [p IH|p IH|]; cbn; congruence. Qed.

Lemma countableMessage_lawful (A : Type) `{Countable A} : Lawful (wire.countableMessage A).
Proof.
  intros x. eexists. split; [reflexivity|].
  cbn. rewrite bytesToPos_posToBytes, decode_encode. reflexivity.
Qed.

Lemma wire_codec_lawful : LawfulCodec wire.codec.
Proof. repeat split; apply countableMessage_lawful. Qed.

Example wire_encodes_request :
  @proto.Unmarshal _ (wire.countableMessage pdu.ReceiveReq.t)
    (wire.posToBytes (encode scenario.reqA)) = Ok scenario.reqA.
Proof. vm_compute. reflexivity. Qed.

(** ** The further properties on the scenarios *)

Lemma Receiver_denies_unmapped_witness :
  Receiver.ListFilesystemVersions memfs.lib memfs.backend cases.strictReceiver "pool/a"
    scenario.poolOnly
  = (Err (errorString "access to filesystem denied"), scenario.poolOnly, []) /\
  Receiver.DestroySnapshots memfs.lib memfs.backend cases.strictReceiver
    {| pdu.DestroySnapshotsReq.Filesystem := "pool/a";
       pdu.DestroySnapshotsReq.Snapshots := [scenario.snapshot "s1" ""] |} scenario.poolOnly
  = (Err (errorString "access to filesystem denied"), scenario.poolOnly, []) /\
  Receiver.Receive memfs.lib memfs.backend cases.strictReceiver
    {| pdu.ReceiveReq.Filesystem := "pool/a" |} (Some 1%nat) scenario.poolOnly
  = (Some (errorString "receive to filesystem denied"), scenario.poolOnly, [EvClose 1%nat]).
Proof.
  destruct (Receiver_denies_unmapped (FSMapT := memfs.prefixMap_FSMap) memfs.lib memfs.backend
              cases.strictReceiver "pool/a" ["pool"; "a"] scenario.poolOnly eq_refl eq_refl)
    as (Hlist & Hdestroy & Hreceive).
  split; [exact Hlist|]. split; [apply Hdestroy|apply Hreceive].
Defined.

Lemma malformed_path_rejected_witness :
  Sender.ListFilesystemVersions memfs.lib memfs.backend scenario.sender "pool/a/"
    scenario.withSnapshots
  = (Err (errorString "must not end with a '/'"), scenario.withSnapshots, []) /\
  Receiver.Receive memfs.lib memfs.backend scenario.receiver
    {| pdu.ReceiveReq.Filesystem := "pool/a/" |} (Some 1%nat) scenario.withSnapshots
  = (Some (errorString "must not end with a '/'"), scenario.withSnapshots, [EvClose 1%nat]).
Proof.
  destruct (malformed_path_rejected (FSMapT := memfs.prefixMap_FSMap) memfs.lib memfs.backend
              "pool/a/" (errorString "must not end with a '/'") scenario.withSnapshots eq_refl)
    as (Hsender & Hreceiver).
  split.
  - apply (Hsender scenario.sender).
  - apply (Hreceiver scenario.receiver).
Defined.

Lemma doDestroySnapshots_in_request_order_witness :
  let snaps := [scenario.snapshot "s1" ""; scenario.snapshot "s2" ""; scenario.snapshot "s3" ""] in
  let r := doDestroySnapshots memfs.lib memfs.backend ["pool"; "a"] snaps
             scenario.withSnapshots in
  exists res,
    value r = Ok res /\
    Forall2 (destroys memfs.lib ["pool"; "a"]) (trace r) snaps /\
    Forall2 (reports memfs.lib ["pool"; "a"]) (trace r) (pdu.DestroySnapshotsRes.Results res).
Proof.
  intros snaps r. eexists. split; [vm_compute; reflexivity|].
  apply (doDestroySnapshots_in_request_order memfs.lib memfs.backend ["pool"; "a"] snaps
           scenario.withSnapshots).
  vm_compute. reflexivity.
Defined.

Lemma doDestroySnapshots_first_offender_witness :
  doDestroySnapshots memfs.lib memfs.backend ["pool"; "a"]
    ([scenario.snapshot "s1" ""] ++ scenario.bookmark "b1" :: [scenario.snapshot "s3" ""])
    scenario.withSnapshots
  = (Err (Errorf "version %q is not a snapshot" ["b1"]), scenario.withSnapshots, []) /\
  doDestroySnapshots memfs.lib memfs.backend ["pool"; "a"]
    ([scenario.snapshot "s1" ""] ++ scenario.snapshot "s2" "yesterday"
       :: [scenario.bookmark "b1"])
    scenario.withSnapshots
  = (Err (Errorf "parsing time %q" ["yesterday"]), scenario.withSnapshots, []).
Proof.
  assert (Hgood : forall fsv, In fsv [scenario.snapshot "s1" ""] ->
            pdu.FilesystemVersion.Type' fsv = pdu.FilesystemVersion_Snapshot /\
            exists v, ZFSFilesystemVersion memfs.lib fsv = Ok v).
  { intros fsv [<-|[]]. split; [reflexivity|eexists; reflexivity]. }
  destruct (doDestroySnapshots_first_offender memfs.lib memfs.backend ["pool"; "a"]
              [scenario.snapshot "s1" ""] (scenario.bookmark "b1") [scenario.snapshot "s3" ""]
              scenario.withSnapshots Hgood) as [Hkind _].
  destruct (doDestroySnapshots_first_offender memfs.lib memfs.backend ["pool"; "a"]
              [scenario.snapshot "s1" ""] (scenario.snapshot "s2" "yesterday")
              [scenario.bookmark "b1"] scenario.withSnapshots Hgood) as [_ Hconv].
  split.
  - apply Hkind. cbn. discriminate.
  - apply Hconv; reflexivity.
Defined.

Lemma Handle_ignores_request_stream_witness :
  Handler.Handle (codec := wire.codec) scenario.senderHandler RPCListFilesystems
    (wire.posToBytes (encode pdu.ListFilesystemReq.Build_t)) None scenario.withSnapshots
  = Handler.Handle (codec := wire.codec) scenario.senderHandler RPCListFilesystems
      (wire.posToBytes (encode pdu.ListFilesystemReq.Build_t)) (Some 1%nat)
      scenario.withSnapshots.
Proof.
  apply (Handle_ignores_request_stream (codec := wire.codec)). discriminate.
Defined.

Lemma Handle_streams_only_for_Send_witness :
  let b := wire.posToBytes (encode cases.sendReq) in
  exists rb,
    value (Handler.Handle (codec := wire.codec) scenario.senderHandler RPCSend b None
             scenario.withSnapshots) = Ok (rb, Some 7%nat) /\
    exists sender req res,
      replication.asSender (Handler.ep scenario.senderHandler) = Some sender /\
      @proto.Unmarshal _ (wire.countableMessage pdu.SendReq.t) b = Ok req /\
      value (replication.Send sender req scenario.withSnapshots) = Ok (res, Some 7%nat) /\
      @proto.Marshal _ (wire.countableMessage pdu.SendRes.t) res = Ok rb.
Proof.
  intros b. eexists. split; [vm_compute; reflexivity|].
  apply (Handle_streams_only_for_Send (codec := wire.codec) scenario.senderHandler RPCSend b
           None scenario.withSnapshots).
  vm_compute. reflexivity.
Defined.

Lemma wire_round_trip_witness :
  let c := loopback (codec := wire.codec) scenario.receiverHandler in
  answer (Remote.ListFilesystems (codec := wire.codec) c scenario.poolOnly)
  = answer (Receiver.ListFilesystems memfs.lib memfs.backend scenario.receiver
              scenario.poolOnly) /\
  answer (Remote.Receive (codec := wire.codec) c scenario.reqABC (Some 1%nat) scenario.poolOnly)
  = answer (Receiver.Receive memfs.lib memfs.backend scenario.receiver scenario.reqABC
              (Some 1%nat) scenario.poolOnly) /\
  answer (Remote.Send (codec := wire.codec) c cases.sendReq scenario.poolOnly)
  = (Err (errorString "no handler for given endpoint"), scenario.poolOnly).
Proof.
  intros c.
  destruct (wire_round_trip (codec := wire.codec) scenario.receiverHandler scenario.poolOnly
              wire_codec_lawful) as (Hlist & _ & _ & Hsend & Hreceive).
  split; [exact Hlist|]. split.
  - exact (Hreceive scenario.reqABC 1%nat).
  - exact (Hsend cases.sendReq).
Defined.
